(** * The Aura scoring engine (src/lib/aura.ts)

    A shallow embedding of [clamp], [logScore], [pickAuraType], [meta]
    and [computeAura], and the properties the specification states about
    them; then further properties of these functions and of
    [fetchFarcasterStats] (src/components/AuraCard.tsx), which reads the
    statistics the engine is fed with.

    Numeric model.  A TypeScript [number] is read as a real number: the
    arithmetic of the engine ([+], [*], [/], [Math.max], [Math.min],
    [Math.log10], [Math.round]) is taken exactly, without the rounding of
    IEEE-754 doubles, and the values NaN and the two infinities are not
    part of the model.  An optional field ([longCastRatio?: number]) is an
    [option].  A string is the sequence of the bytes of its UTF-8
    encoding. *)

From Stdlib Require Import Reals Lra Lia ZArith List String Ascii Bool.
From Stdlib Require Import Sorting.Permutation Sorting.Sorted DecimalString.
Import ListNotations.

Open Scope R_scope.

(** ** The numbers of the host language *)

Module JS.

Definition number : Type := R.

Definition Math_max (a b : number) : number := Rmax a b.
Definition Math_min (a b : number) : number := Rmin a b.

(** [Math.round] rounds to the nearest integer, a tie going up:
    floor (x + 1/2). *)
Definition Math_round (x : number) : number := IZR (Zfloor (x + / 2)).

(** [Math.log10] on its domain; the engine only calls it on 1 + v with
    v >= 0.  ([ln] is 0 outside its domain, where the host answers NaN
    or -Infinity.) *)
Definition Math_log10 (x : number) : number := ln x / ln 10.

(** [a > b] and [a <= b] as tests. *)
Definition gt (a b : number) : bool := if Rlt_dec b a then true else false.
Definition le (a b : number) : bool := if Rle_dec a b then true else false.

(** [o ?? d] *)
Definition nullish (o : option number) (d : number) : number :=
  match o with Some v => v | None => d end.

(** [Array.prototype.sort(compareFn)]: a stable sort; [b] is moved before
    an earlier [a] exactly when [compareFn(a, b) > 0]. *)
Section Sort.
Context {A : Type} (compareFn : A -> A -> number).

Fixpoint insert (a : A) (sorted : list A) : list A :=
  match sorted with
  | [] => [a]
  | b :: rest =>
      if gt (compareFn a b) 0 then b :: insert a rest else a :: b :: rest
  end.

Definition Array_sort (l : list A) : list A := fold_right insert [] l.
End Sort.

End JS.
Import JS.

(** ** Data model *)

Inductive AuraType : Type :=
  | BUILDER | CREATOR | INFLUENCER | THINKER | DEGEN | LURKER.

Definition AuraEmoji : Type := string.

Record AuraInputs : Type := mkInputs {
  casts : number;
  replies : number;
  reactionsReceived : number;
  followers : number;
  longCastRatio : option number;
  mediaCastRatio : option number;
  baseTxCount : option number
}.

Record AuraBreakdown : Type := mkBreakdown {
  activity : number;
  impact : number;
  social : number;
  style : number;
  onchain : number
}.

Record AuraMeta : Type := mkMeta {
  meta_emoji : AuraEmoji;
  meta_label : string;
  meta_description : string
}.

Record AuraResult : Type := mkResult {
  type : AuraType;
  score : number;
  emoji : AuraEmoji;
  label : string;
  description : string;
  breakdown : AuraBreakdown
}.

(** ** The engine *)

Definition clamp (n min max : number) : number := Math_min max (Math_max min n).
Definition clamp01 (n : number) : number := clamp n 0 1.

Definition logScore (value cap : number) : number :=
  let v := Math_max 0 value in
  let c := Math_max 1 cap in
  let r := Math_log10 (1 + v) / Math_log10 (1 + c) in
  Math_round (clamp (r * 100) 0 100).

(** [entries[0]![0]] fails on an empty array: [None]. *)
Definition pickAuraType (inputs : AuraInputs) (breakdown : AuraBreakdown)
  : option AuraType :=
  let casts := Math_max 0 (casts inputs) in
  let replies := Math_max 0 (replies inputs) in
  let longRatio := clamp01 (nullish (longCastRatio inputs) 0) in
  let mediaRatio := clamp01 (nullish (mediaCastRatio inputs) 0) in
  let onchain := onchain breakdown in
  let builder :=
    activity breakdown * 0.6 + impact breakdown * 0.2
    + (if gt replies casts then 10 else 0) in
  let creator :=
    style breakdown * 0.75 + impact breakdown * 0.15 + activity breakdown * 0.1 in
  let influencer :=
    social breakdown * 0.45 + impact breakdown * 0.45 + activity breakdown * 0.1 in
  let thinker :=
    style breakdown * 0.55 + activity breakdown * 0.35
    + (if gt longRatio 0.35 then 10 else 0) in
  let degen :=
    onchain * 0.65 + activity breakdown * 0.2 + impact breakdown * 0.15 in
  let totalActivity := casts + replies in
  let isLurker :=
    le totalActivity 2
    || (le (activity breakdown) 12 && le (impact breakdown) 12
        && le (social breakdown) 12) in
  if isLurker then Some LURKER
  else
    let entries : list (AuraType * number) :=
      [ (BUILDER, builder); (CREATOR, creator); (INFLUENCER, influencer);
        (THINKER, thinker); (DEGEN, degen) ] in
    match Array_sort (fun a b => snd b - snd a) entries with
    | e :: _ => Some (fst e)
    | [] => None
    end.

Definition meta (type : AuraType) : AuraMeta :=
  match type with
  | BUILDER =>
      mkMeta "🛠" "Builder Aura" "You ship more than you talk. Keep building."
  | CREATOR =>
      mkMeta "🎨" "Creator Aura" "Taste + output. You make the timeline prettier."
  | INFLUENCER =>
      mkMeta "📣" "Influencer Aura"
             "You move attention. The feed follows your signal."
  | THINKER =>
      mkMeta "🧠" "Thinker Aura" "Depth merchant. Your replies add real brainpower."
  | DEGEN =>
      mkMeta "🎰" "Degen Aura"
             "Onchain instincts. You’re early, often, and unbothered."
  | LURKER =>
      mkMeta "👀" "Lurker Aura"
             "Silent watcher. Your aura is mysterious (and powerful)."
  end%string.

Definition AuraType_eqb (a b : AuraType) : bool :=
  match a, b with
  | BUILDER, BUILDER | CREATOR, CREATOR | INFLUENCER, INFLUENCER
  | THINKER, THINKER | DEGEN, DEGEN | LURKER, LURKER => true
  | _, _ => false
  end.

Definition computeAura (inputs : AuraInputs) : option AuraResult :=
  let activityRaw := casts inputs + replies inputs * 1.2 in
  let impactRaw := reactionsReceived inputs in
  let socialRaw := followers inputs in
  let activity := logScore activityRaw 120 in
  let impact := logScore impactRaw 250 in
  let social := logScore socialRaw 2000 in
  let longRatio := clamp01 (nullish (longCastRatio inputs) 0) in
  let mediaRatio := clamp01 (nullish (mediaCastRatio inputs) 0) in
  let style := Math_round (clamp (longRatio * 55 + mediaRatio * 45) 0 100) in
  let baseTx := Math_max 0 (nullish (baseTxCount inputs) 0) in
  let onchain := logScore baseTx 40 in
  let breakdown := mkBreakdown activity impact social style onchain in
  match pickAuraType inputs breakdown with
  | None => None
  | Some type =>
      let m := meta type in
      let weighted :=
        activity * 0.35 + impact * 0.30 + social * 0.20 + style * 0.10
        + onchain * 0.05 in
      let score :=
        if AuraType_eqb type LURKER
        then Math_round (clamp (weighted * 0.7 + 10) 0 60)
        else Math_round (clamp weighted 0 100) in
      Some (mkResult type score (meta_emoji m) (meta_label m)
                     (meta_description m) breakdown)
  end.

(** ** Named parts of the computation

    The intermediate values of [computeAura] and [pickAuraType], as
    functions of the inputs, for use in statements. *)

Definition activityRaw (i : AuraInputs) : number := casts i + replies i * 1.2.
Definition activityOf (i : AuraInputs) : number := logScore (activityRaw i) 120.
Definition impactOf (i : AuraInputs) : number := logScore (reactionsReceived i) 250.
Definition socialOf (i : AuraInputs) : number := logScore (followers i) 2000.
Definition styleOf (i : AuraInputs) : number :=
  Math_round (clamp (clamp01 (nullish (longCastRatio i) 0) * 55
                     + clamp01 (nullish (mediaCastRatio i) 0) * 45) 0 100).
Definition onchainOf (i : AuraInputs) : number :=
  logScore (Math_max 0 (nullish (baseTxCount i) 0)) 40.
Definition breakdownOf (i : AuraInputs) : AuraBreakdown :=
  mkBreakdown (activityOf i) (impactOf i) (socialOf i) (styleOf i) (onchainOf i).

Definition weightedOf (b : AuraBreakdown) : number :=
  activity b * 0.35 + impact b * 0.30 + social b * 0.20 + style b * 0.10
  + onchain b * 0.05.

Definition scoreOf (t : AuraType) (b : AuraBreakdown) : number :=
  if AuraType_eqb t LURKER
  then Math_round (clamp (weightedOf b * 0.7 + 10) 0 60)
  else Math_round (clamp (weightedOf b) 0 100).

(** The override test of [pickAuraType]. *)
Definition isLurker (i : AuraInputs) (b : AuraBreakdown) : bool :=
  le (Math_max 0 (casts i) + Math_max 0 (replies i)) 2
  || (le (activity b) 12 && le (impact b) 12 && le (social b) 12).

(** The five affinities of [pickAuraType]. *)
Definition builderOf (i : AuraInputs) (b : AuraBreakdown) : number :=
  activity b * 0.6 + impact b * 0.2
  + (if gt (Math_max 0 (replies i)) (Math_max 0 (casts i)) then 10 else 0).
Definition creatorOf (b : AuraBreakdown) : number :=
  style b * 0.75 + impact b * 0.15 + activity b * 0.1.
Definition influencerOf (b : AuraBreakdown) : number :=
  social b * 0.45 + impact b * 0.45 + activity b * 0.1.
Definition thinkerOf (i : AuraInputs) (b : AuraBreakdown) : number :=
  style b * 0.55 + activity b * 0.35
  + (if gt (clamp01 (nullish (longCastRatio i) 0)) 0.35 then 10 else 0).
Definition degenOf (b : AuraBreakdown) : number :=
  onchain b * 0.65 + activity b * 0.2 + impact b * 0.15.

Definition entriesOf (i : AuraInputs) (b : AuraBreakdown)
  : list (AuraType * number) :=
  [ (BUILDER, builderOf i b); (CREATOR, creatorOf b);
    (INFLUENCER, influencerOf b); (THINKER, thinkerOf i b);
    (DEGEN, degenOf b) ].

(** ** What the specification writes *)

(** The sanitising map of the specification's invariant: every count
    floored at 0, every ratio clamped into [0,1], an absent optional
    field replaced by 0. *)
Definition sanitize (i : AuraInputs) : AuraInputs :=
  mkInputs (Rmax 0 (casts i)) (Rmax 0 (replies i))
           (Rmax 0 (reactionsReceived i)) (Rmax 0 (followers i))
           (Some (clamp01 (nullish (longCastRatio i) 0)))
           (Some (clamp01 (nullish (mediaCastRatio i) 0)))
           (Some (Rmax 0 (nullish (baseTxCount i) 0))).

(** The normalisation as the specification writes it, with logarithms
    to a base [b]. *)
Definition log_base (b x : R) : R := ln x / ln b.

Definition logScore_spec (b : R) (rawValue cap : R) : R :=
  let v := Rmax 0 rawValue in
  let c := Rmax 1 cap in
  let ratio := log_base b (1 + v) / log_base b (1 + c) in
  Math_round (clamp (ratio * 100) 0 100).

Definition entry : Type := (AuraType * number)%type.

(** The first entry of greatest value: every entry before it is strictly
    smaller, no entry after it is greater. *)
Definition first_greatest (e : AuraType * number)
           (l : list (AuraType * number)) : Prop :=
  exists pre post,
    l = pre ++ e :: post
    /\ (forall x, In x pre -> snd x < snd e)
    /\ (forall x, In x post -> snd x <= snd e).

(** The table of section 6 of the specification. *)
Definition spec_table (t : AuraType) : string * string * string :=
  match t with
  | BUILDER =>
      ("🛠", "Builder Aura", "You ship more than you talk. Keep building.")
  | CREATOR =>
      ("🎨", "Creator Aura", "Taste + output. You make the timeline prettier.")
  | INFLUENCER =>
      ("📣", "Influencer Aura",
       "You move attention. The feed follows your signal.")
  | THINKER =>
      ("🧠", "Thinker Aura", "Depth merchant. Your replies add real brainpower.")
  | DEGEN =>
      ("🎰", "Degen Aura",
       "Onchain instincts. You're early, often, and unbothered.")
  | LURKER =>
      ("👀", "Lurker Aura",
       "Silent watcher. Your aura is mysterious (and powerful).")
  end%string.

(** ** Notions used in the statements *)

(** The integer comparisons that settle [logScore (n / d) m = k]. *)
Definition logScore_cert (n d m k : Z) : bool :=
  ((0 <=? n) && (0 <? d) && (1 <=? m) && (0 <=? k) && (k <=? 100)
   && ((k =? 0) || ((m + 1) ^ (2 * k - 1) * d ^ 200 <=? (n + d) ^ 200))
   && ((k =? 100) || ((n + d) ^ 200 <? (m + 1) ^ (2 * k + 1) * d ^ 200)))%Z.

(** The comparator of [pickAuraType]: [(a, b) => b[1] - a[1]]. *)
Definition byScoreDesc (a b : entry) : number := snd b - snd a.

(** [x] is an integer between [lo] and [hi]. *)
Definition int_in (lo hi : Z) (x : number) : Prop :=
  exists z : Z, x = IZR z /\ (lo <= z <= hi)%Z.

(** An input with a negative count of casts. *)
Definition negative_casts : AuraInputs :=
  mkInputs (-240) 100 0 0 None None None.

(** The override condition of [pickAuraType] on an input and its
    breakdown. *)
Definition override (i : AuraInputs) (b : AuraBreakdown) : Prop :=
  Math_max 0 (casts i) + Math_max 0 (replies i) <= 2
  \/ (activity b <= 12 /\ impact b <= 12 /\ social b <= 12).

(** The input of the specification's precedence scenario, whatever the
    optional fields are. *)
Definition one_cast (l m b : option number) : AuraInputs :=
  mkInputs 1 0 1000 1000000 l m b.

(** The scenario of the specification in which onchain saturates. *)
Definition onchain_scenario : AuraInputs :=
  mkInputs 10 2 5 20 None None (Some 60).


(** The raw count metrics of an input record. *)
Inductive Metric : Type :=
  | Casts | Replies | ReactionsReceived | Followers | BaseTxCount.

(** The value of a metric; an absent [baseTxCount] counts as 0, as under
    [?? 0]. *)
Definition metric (m : Metric) (i : AuraInputs) : number :=
  match m with
  | Casts => casts i
  | Replies => replies i
  | ReactionsReceived => reactionsReceived i
  | Followers => followers i
  | BaseTxCount => nullish (baseTxCount i) 0
  end.

(** The record with one metric replaced, every other field kept. *)
Definition with_metric (m : Metric) (x : number) (i : AuraInputs) : AuraInputs :=
  match m with
  | Casts =>
      mkInputs x (replies i) (reactionsReceived i) (followers i)
               (longCastRatio i) (mediaCastRatio i) (baseTxCount i)
  | Replies =>
      mkInputs (casts i) x (reactionsReceived i) (followers i)
               (longCastRatio i) (mediaCastRatio i) (baseTxCount i)
  | ReactionsReceived =>
      mkInputs (casts i) (replies i) x (followers i)
               (longCastRatio i) (mediaCastRatio i) (baseTxCount i)
  | Followers =>
      mkInputs (casts i) (replies i) (reactionsReceived i) x
               (longCastRatio i) (mediaCastRatio i) (baseTxCount i)
  | BaseTxCount =>
      mkInputs (casts i) (replies i) (reactionsReceived i) (followers i)
               (longCastRatio i) (mediaCastRatio i) (Some x)
  end.

(** The dimension a metric feeds. *)
Definition dimension_of (m : Metric) (b : AuraBreakdown) : number :=
  match m with
  | Casts | Replies => activity b
  | ReactionsReceived => impact b
  | Followers => social b
  | BaseTxCount => onchain b
  end.

(** The dimensions that [computeAura] normalises with [logScore]. *)
Inductive Capped : Type := Activity | Impact | Social | Onchain.

(** The cap [computeAura] passes to [logScore] for each of them. *)
Definition cap_of (d : Capped) : number :=
  match d with
  | Activity => 120
  | Impact => 250
  | Social => 2000
  | Onchain => 40
  end.

(** The raw value [computeAura] passes to [logScore]. *)
Definition raw_of (d : Capped) (i : AuraInputs) : number :=
  match d with
  | Activity => casts i + replies i * 1.2
  | Impact => reactionsReceived i
  | Social => followers i
  | Onchain => Math_max 0 (nullish (baseTxCount i) 0)
  end.

Definition capped_dimension (d : Capped) (b : AuraBreakdown) : number :=
  match d with
  | Activity => activity b
  | Impact => impact b
  | Social => social b
  | Onchain => onchain b
  end.

(** What [computeAura] reads of an input record: the floored counts,
    the floored sum [casts + replies * 1.2], the clamped ratios and the
    floored transaction count, an absent optional field read as 0. *)
Definition same_reading (i j : AuraInputs) : Prop :=
  Math_max 0 (casts i) = Math_max 0 (casts j)
  /\ Math_max 0 (replies i) = Math_max 0 (replies j)
  /\ Math_max 0 (casts i + replies i * 1.2)
     = Math_max 0 (casts j + replies j * 1.2)
  /\ Math_max 0 (reactionsReceived i) = Math_max 0 (reactionsReceived j)
  /\ Math_max 0 (followers i) = Math_max 0 (followers j)
  /\ clamp01 (nullish (longCastRatio i) 0) = clamp01 (nullish (longCastRatio j) 0)
  /\ clamp01 (nullish (mediaCastRatio i) 0)
     = clamp01 (nullish (mediaCastRatio j) 0)
  /\ Math_max 0 (nullish (baseTxCount i) 0)
     = Math_max 0 (nullish (baseTxCount j) 0).

(** The entries of value [v], in their order. *)
Definition has_value (v : number) (e : entry) : bool :=
  if Req_dec_T (snd e) v then true else false.

Definition of_value (v : number) (l : list entry) : list entry :=
  filter (has_value v) l.

(** Each entry is at least as great as every later one. *)
Definition descending (l : list entry) : Prop :=
  StronglySorted (fun a b : entry => snd b <= snd a) l.

(** ** Reading the statistics of a user (src/components/AuraCard.tsx)

    [fetchFarcasterStats] sends two requests and counts what the answers
    hold.  The network is a function from a request to the JSON body of
    its answer, [None] when [fetch] or [json] rejects.  A body is read
    as an object with the fields the function looks at, each of which
    may be absent or null: [users], an array of objects with an optional
    [follower_count], and [casts], an array of objects with an optional
    [parent_hash] string and optional [reactions], whose optional
    [likes] and [recasts] are arrays.  The id is a natural number,
    printed in decimal as a template literal prints it. *)

Module Farcaster.

Record FarcasterStats : Type := mkStats {
  casts : number;
  replies : number;
  reactionsReceived : number;
  followers : number
}.

(** An element of [likes] or [recasts]; the function reads none of its
    fields. *)
Inductive Reaction : Type := reaction.

Record Reactions : Type := mkReactions {
  likes : option (list Reaction);
  recasts : option (list Reaction)
}.

Record Cast : Type := mkCast {
  parent_hash : option string;
  reactions : option Reactions
}.

Record User : Type := mkUser {
  follower_count : option number
}.

Record Body : Type := mkBody {
  body_users : option (list User);
  body_casts : option (list Cast)
}.

Record Request : Type := mkRequest {
  url : string;
  api_key : string
}.

Definition Network : Type := Request -> option Body.

(** How the promise settles: with the statistics, with the error the
    function throws, or with the rejection of a request. *)
Inductive Outcome : Type :=
  | Resolved (stats : FarcasterStats)
  | Thrown (message : string)
  | Rejected.

(** [!s] for a string or undefined. *)
Definition falsy (s : option string) : bool :=
  match s with
  | None => true
  | Some s => String.eqb s EmptyString
  end.

(** [n || d] for a number or undefined. *)
Definition or_else (n : option number) (d : number) : number :=
  match n with
  | None => d
  | Some v => if Req_dec_T v 0 then d else v
  end.

(** [a?.length] *)
Definition length_opt {A : Type} (a : option (list A)) : option number :=
  match a with
  | None => None
  | Some l => Some (INR (List.length l))
  end.

(** [o?.f] *)
Definition chain {A B : Type} (o : option A) (f : A -> option B) : option B :=
  match o with
  | None => None
  | Some a => f a
  end.

(** [a?.[0]] *)
Definition first {A : Type} (a : option (list A)) : option A :=
  match a with
  | Some (x :: _) => Some x
  | _ => None
  end.

Definition NEYNAR_BASE : string := "https://api.neynar.com/v2/farcaster".

(** The id inside a template literal. *)
Definition template (fid : N) : string :=
  NilZero.string_of_uint (N.to_uint fid).

(** One turn of the loop over the casts, on the pair
    [(replies, reactionsReceived)]. *)
Definition count (acc : number * number) (cast : Cast) : number * number :=
  let replies := fst acc in
  let reactionsReceived := snd acc in
  let replies := if falsy (parent_hash cast) then replies else replies + 1 in
  let reactionsReceived :=
    reactionsReceived + or_else (length_opt (chain (reactions cast) likes)) 0 in
  let reactionsReceived :=
    reactionsReceived + or_else (length_opt (chain (reactions cast) recasts)) 0 in
  (replies, reactionsReceived).

(** The function, with the requests it has sent, in order. *)
Definition fetchFarcasterStats (NEYNAR_API_KEY : option string)
           (fetch : Network) (fid : N) : list Request * Outcome :=
  if falsy NEYNAR_API_KEY
  then ([], Thrown "Missing NEXT_PUBLIC_NEYNAR_API_KEY")
  else
    let key := match NEYNAR_API_KEY with Some k => k | None => EmptyString end in
    let userReq :=
      mkRequest (NEYNAR_BASE ++ "/user/bulk?fids=" ++ template fid) key in
    match fetch userReq with
    | None => ([userReq], Rejected)
    | Some userJson =>
        let user := first (body_users userJson) in
        let castsReq :=
          mkRequest (NEYNAR_BASE ++ "/feed/user?fid=" ++ template fid
                     ++ "&limit=30") key in
        match fetch castsReq with
        | None => ([userReq; castsReq], Rejected)
        | Some castsJson =>
            let casts :=
              match body_casts castsJson with Some l => l | None => [] end in
            let acc := fold_left count casts (0, 0) in
            ([userReq; castsReq],
             Resolved (mkStats (INR (List.length casts)) (fst acc) (snd acc)
                               (nullish (chain user follower_count) 0)))
        end
    end%string.

(** The casts that are replies, and the reactions a cast has received,
    as natural numbers. *)
Definition is_reply (cast : Cast) : bool := negb (falsy (parent_hash cast)).

Definition size {A : Type} (a : option (list A)) : nat :=
  match a with
  | None => 0%nat
  | Some l => List.length l
  end.

Definition reactions_of (cast : Cast) : nat :=
  (size (chain (reactions cast) likes)
   + size (chain (reactions cast) recasts))%nat.

(** A network that answers every request with one user of 42 followers
    and two casts, the first a reply with two likes. *)
Definition sample_network : Network :=
  fun _ =>
    Some (mkBody (Some [mkUser (Some 42)])
                 (Some [mkCast (Some "0xabc"%string)
                               (Some (mkReactions (Some [reaction; reaction])
                                                  None));
                        mkCast None None])).

End Farcaster.

(** The statistics as the inputs of [computeAura]: the four fields they
    share, no optional field. *)
Definition inputs_of (s : Farcaster.FarcasterStats) : AuraInputs :=
  mkInputs (Farcaster.casts s) (Farcaster.replies s)
           (Farcaster.reactionsReceived s) (Farcaster.followers s)
           None None None.

(** ** Clamping and rounding *)

(** Goals about [Math.max], [Math.min] and [clamp]: split on every
    comparison, then linear arithmetic. *)
Ltac minmax_lra :=
  unfold clamp01, clamp, Math_min, Math_max, Rmin, Rmax in *;
  repeat match goal with
         | |- context [Rle_dec ?a ?b] => destruct (Rle_dec a b)
         | H : context [Rle_dec ?a ?b] |- _ => destruct (Rle_dec a b)
         end;
  try lra.

Section Rounding.

Lemma gt_true (a b : R) : gt a b = true <-> b < a.
Proof. unfold gt; destruct (Rlt_dec b a); split; intros; congruence || lra. Qed.

Lemma gt_false (a b : R) : gt a b = false <-> a <= b.
Proof. unfold gt; destruct (Rlt_dec b a); split; intros; congruence || lra. Qed.

Lemma le_true (a b : R) : le a b = true <-> a <= b.
Proof. unfold le; destruct (Rle_dec a b); split; intros; congruence || lra. Qed.

Lemma le_false (a b : R) : le a b = false <-> b < a.
Proof. unfold le; destruct (Rle_dec a b); split; intros; congruence || lra. Qed.

Lemma clamp_bounds (n lo hi : R) : lo <= hi -> lo <= clamp n lo hi <= hi.
Proof. intros H; minmax_lra. Qed.

Lemma clamp_mono (n n' lo hi : R) : n <= n' -> clamp n lo hi <= clamp n' lo hi.
Proof. intros H; minmax_lra. Qed.

Lemma clamp_id (n lo hi : R) : lo <= n <= hi -> clamp n lo hi = n.
Proof. intros H; minmax_lra. Qed.

Lemma clamp_above (n lo hi : R) : lo <= hi -> hi <= n -> clamp n lo hi = hi.
Proof. intros H1 H2; minmax_lra. Qed.

Lemma clamp_below (n lo hi : R) : lo <= hi -> n <= lo -> clamp n lo hi = lo.
Proof. intros H1 H2; minmax_lra. Qed.

Lemma clamp_idem (n lo hi : R) :
  lo <= hi -> clamp (clamp n lo hi) lo hi = clamp n lo hi.
Proof. intros H; apply clamp_id, clamp_bounds, H. Qed.

Lemma Math_round_eq (z : Z) (x : R) :
  IZR z - / 2 <= x < IZR z + / 2 -> Math_round x = IZR z.
Proof.
  intros H; unfold Math_round; f_equal; apply Zfloor_eq; lra.
Qed.

Lemma Math_round_IZR (z : Z) : Math_round (IZR z) = IZR z.
Proof. apply Math_round_eq; lra. Qed.

Lemma Math_round_mono (x y : R) : x <= y -> Math_round x <= Math_round y.
Proof.
  intros H; unfold Math_round; apply IZR_le, Zfloor_le; lra.
Qed.

(** Rounding a value between two integers gives an integer between
    them. *)
Lemma Math_round_between (a b : Z) (x : R) :
  IZR a <= x <= IZR b ->
  exists z : Z, Math_round x = IZR z /\ (a <= z <= b)%Z.
Proof.
  intros [Ha Hb]; exists (Zfloor (x + / 2)); split; [reflexivity |].
  split.
  - apply Zfloor_lub; lra.
  - pose proof (Zfloor_bound (x + / 2)) as [L _].
    assert (IZR (Zfloor (x + / 2)) < IZR b + 1) as S by lra.
    rewrite <- plus_IZR in S. apply lt_IZR in S. lia.
Qed.

End Rounding.

(** ** Logarithms *)

Section Logarithms.

Lemma ln_le (x y : R) : 0 < x -> x <= y -> ln x <= ln y.
Proof.
  intros Hx [H | ->]; [left; apply ln_increasing; assumption | right; reflexivity].
Qed.

Lemma ln_nonneg (x : R) : 1 <= x -> 0 <= ln x.
Proof. intros H; rewrite <- ln_1; apply ln_le; lra. Qed.

Lemma ln_pos (x : R) : 1 < x -> 0 < ln x.
Proof. intros H; rewrite <- ln_1; apply ln_increasing; lra. Qed.

Lemma ln10_pos : 0 < ln 10.
Proof. apply ln_pos; lra. Qed.

(** The base of the logarithm cancels in a ratio. *)
Lemma log_ratio_base (b x y : R) :
  0 < b -> b <> 1 -> 1 < y ->
  Math_log10 x / Math_log10 y = log_base b x / log_base b y.
Proof.
  intros Hb Hb1 Hy; unfold Math_log10, log_base.
  pose proof ln10_pos. pose proof (ln_pos y Hy).
  pose proof (ln_neq_0 b Hb1 Hb).
  field; repeat split; lra.
Qed.

Lemma log10_ratio (x y : R) :
  1 < y -> Math_log10 x / Math_log10 y = ln x / ln y.
Proof.
  intros Hy; unfold Math_log10.
  pose proof ln10_pos. pose proof (ln_pos y Hy).
  field; split; lra.
Qed.

(** Comparing a ratio of logarithms with a fraction is comparing two
    powers. *)
Lemma ln_ratio_ge (a b : R) (p q : nat) :
  0 < a -> 1 < b -> (0 < q)%nat -> b ^ p <= a ^ q ->
  INR p / INR q <= ln a / ln b.
Proof.
  intros Ha Hb Hq H.
  pose proof (ln_pos b Hb) as Lb. pose proof (lt_0_INR q Hq) as Q.
  assert (INR p * ln b <= INR q * ln a) as E.
  { rewrite <- !ln_pow by lra. apply ln_le; [apply pow_lt; lra | exact H]. }
  apply Rmult_le_reg_r with (r := INR q * ln b); [nra |].
  replace (INR p / INR q * (INR q * ln b)) with (INR p * ln b) by (field; lra).
  replace (ln a / ln b * (INR q * ln b)) with (INR q * ln a) by (field; lra).
  exact E.
Qed.

Lemma ln_ratio_lt (a b : R) (p q : nat) :
  0 < a -> 1 < b -> (0 < q)%nat -> a ^ q < b ^ p ->
  ln a / ln b < INR p / INR q.
Proof.
  intros Ha Hb Hq H.
  pose proof (ln_pos b Hb) as Lb. pose proof (lt_0_INR q Hq) as Q.
  assert (INR q * ln a < INR p * ln b) as E.
  { rewrite <- !ln_pow by lra. apply ln_increasing; [apply pow_lt; lra | exact H]. }
  apply Rmult_lt_reg_r with (r := INR q * ln b); [nra |].
  replace (INR p / INR q * (INR q * ln b)) with (INR p * ln b) by (field; lra).
  replace (ln a / ln b * (INR q * ln b)) with (INR q * ln a) by (field; lra).
  exact E.
Qed.

End Logarithms.

(** ** The normalisation [logScore] *)

Section LogScore.

Variables value cap : R.

Let v := Math_max 0 value.
Let c := Math_max 1 cap.

Lemma logScore_arg_ge_1 : 1 <= 1 + v.
Proof. subst v; minmax_lra. Qed.

Lemma logScore_cap_gt_1 : 1 < 1 + c.
Proof. subst c; minmax_lra. Qed.

Lemma logScore_ln : logScore value cap
                    = Math_round (clamp (ln (1 + v) / ln (1 + c) * 100) 0 100).
Proof. unfold logScore; fold v; fold c. now rewrite log10_ratio by apply logScore_cap_gt_1. Qed.

Lemma logScore_ratio_nonneg : 0 <= ln (1 + v) / ln (1 + c).
Proof.
  pose proof (ln_nonneg _ logScore_arg_ge_1).
  pose proof (ln_pos _ logScore_cap_gt_1).
  apply Rmult_le_pos; [assumption | left; apply Rinv_0_lt_compat; assumption].
Qed.

(** An integer between 0 and 100. *)
Lemma logScore_range :
  exists z : Z, logScore value cap = IZR z /\ (0 <= z <= 100)%Z.
Proof.
  unfold logScore. apply Math_round_between. apply clamp_bounds; lra.
Qed.

(** Only the floored raw value matters. *)
Lemma logScore_floor : logScore (Math_max 0 value) cap = logScore value cap.
Proof.
  unfold logScore. replace (Math_max 0 (Math_max 0 value)) with (Math_max 0 value)
    by minmax_lra. reflexivity.
Qed.

Lemma logScore_nonpos : value <= 0 -> logScore value cap = 0.
Proof.
  intros H. rewrite logScore_ln.
  replace (1 + v) with 1 by (subst v; minmax_lra).
  rewrite ln_1. unfold Rdiv. rewrite !Rmult_0_l.
  rewrite clamp_id by lra. apply (Math_round_IZR 0).
Qed.

(** At or above the cap the score is exactly 100. *)
Lemma logScore_saturates : 1 <= cap -> cap <= value -> logScore value cap = 100.
Proof.
  intros Hc Hv. rewrite logScore_ln.
  pose proof (ln_pos _ logScore_cap_gt_1) as Lc.
  assert (ln (1 + c) <= ln (1 + v)) as L.
  { apply ln_le; [pose proof logScore_cap_gt_1; lra | subst v c; minmax_lra]. }
  assert (1 <= ln (1 + v) / ln (1 + c)) as R1.
  { apply Rmult_le_reg_r with (r := ln (1 + c)); [exact Lc |].
    replace (ln (1 + v) / ln (1 + c) * ln (1 + c)) with (ln (1 + v))
      by (field; lra). lra. }
  rewrite clamp_above by lra. apply (Math_round_IZR 100).
Qed.

End LogScore.

(** Raising the raw value never lowers the score. *)
Lemma logScore_mono (x y cap : R) : x <= y -> logScore x cap <= logScore y cap.
Proof.
  intros H. rewrite !logScore_ln.
  apply Math_round_mono, clamp_mono.
  apply Rmult_le_compat_r; [lra |].
  pose proof (ln_pos _ (logScore_cap_gt_1 cap)) as Lc.
  apply Rmult_le_compat_r; [left; apply Rinv_0_lt_compat; exact Lc |].
  apply ln_le; [pose proof (logScore_arg_ge_1 x); lra | minmax_lra].
Qed.

(** ** Evaluating [logScore] at a rational raw value

    round (100 * ln a / ln b) = k is a comparison of a ^ 200 with
    b ^ (2k - 1) and b ^ (2k + 1); for a = (n + d) / d and b = m + 1 these
    are integers. *)

Section Certificate.

Lemma pow_IZR_Z (z e : Z) : (0 <= e)%Z -> IZR (z ^ e) = IZR z ^ Z.to_nat e.
Proof. intros H. rewrite pow_IZR, Z2Nat.id by exact H. reflexivity. Qed.

Lemma INR_to_nat (e : Z) : (0 <= e)%Z -> INR (Z.to_nat e) = IZR e.
Proof. intros H. rewrite INR_IZR_INZ, Z2Nat.id by exact H. reflexivity. Qed.

Lemma pow_quotient (x y : R) (q : nat) : (x / y) ^ q = x ^ q / y ^ q.
Proof. unfold Rdiv. now rewrite Rpow_mult_distr, pow_inv. Qed.

(** The two comparisons of powers, from the integers to the reals. *)
Lemma pow_le_of_Z (N D M e : Z) (q : nat) :
  (0 < D)%Z -> (0 <= e)%Z ->
  (M ^ e * D ^ Z.of_nat q <= N ^ Z.of_nat q)%Z ->
  IZR M ^ Z.to_nat e <= (IZR N / IZR D) ^ q.
Proof.
  intros HD He H. apply IZR_le in H.
  rewrite mult_IZR, (pow_IZR_Z M e He), <- !pow_IZR in H.
  apply IZR_lt in HD. pose proof (pow_lt _ q HD) as Dq.
  rewrite pow_quotient.
  apply Rmult_le_reg_r with (r := IZR D ^ q); [exact Dq |].
  unfold Rdiv. rewrite Rmult_assoc, Rinv_l, Rmult_1_r; [exact H |].
  apply Rgt_not_eq, Dq.
Qed.

Lemma pow_lt_of_Z (N D M e : Z) (q : nat) :
  (0 < D)%Z -> (0 <= e)%Z ->
  (N ^ Z.of_nat q < M ^ e * D ^ Z.of_nat q)%Z ->
  (IZR N / IZR D) ^ q < IZR M ^ Z.to_nat e.
Proof.
  intros HD He H. apply IZR_lt in H.
  rewrite mult_IZR, (pow_IZR_Z M e He), <- !pow_IZR in H.
  apply IZR_lt in HD. pose proof (pow_lt _ q HD) as Dq.
  rewrite pow_quotient.
  apply Rmult_lt_reg_r with (r := IZR D ^ q); [exact Dq |].
  unfold Rdiv. rewrite Rmult_assoc, Rinv_l, Rmult_1_r; [exact H |].
  apply Rgt_not_eq, Dq.
Qed.

(** Rounding 100 * ln a / ln b, by comparing powers. *)
Lemma round_log_ratio (a b : R) (k : Z) (q : nat) :
  0 < a -> 1 < b -> (0 <= k <= 100)%Z -> INR q = 200 ->
  (k = 0%Z \/ b ^ Z.to_nat (2 * k - 1) <= a ^ q) ->
  (k = 100%Z \/ a ^ q < b ^ Z.to_nat (2 * k + 1)) ->
  Math_round (clamp (ln a / ln b * 100) 0 100) = IZR k.
Proof.
  intros Ha Hb [Hk0 Hk100] Hq Hlo Hhi.
  assert (0 < q)%nat as Qpos.
  { destruct q; [simpl in Hq; lra | lia]. }
  pose proof (IZR_le _ _ Hk0) as Rk0. pose proof (IZR_le _ _ Hk100) as Rk100.
  pose proof (clamp_bounds (ln a / ln b * 100) 0 100 ltac:(lra)) as B.
  apply Math_round_eq. split.
  - destruct Hlo as [-> | P]; [lra |].
    destruct (Z.eq_dec k 0) as [-> | Hne]; [lra |].
    pose proof (ln_ratio_ge a b _ q Ha Hb Qpos P) as Q.
    rewrite INR_to_nat, Hq in Q by lia. rewrite minus_IZR, mult_IZR in Q.
    clear P Hhi.
    assert (IZR k - / 2 <= ln a / ln b * 100) as Q' by lra.
    clear Q. minmax_lra.
  - destruct Hhi as [-> | P]; [lra |].
    pose proof (ln_ratio_lt a b _ q Ha Hb Qpos P) as Q.
    rewrite INR_to_nat, Hq in Q by lia. rewrite plus_IZR, mult_IZR in Q.
    clear P Hlo.
    assert (ln a / ln b * 100 < IZR k + / 2) as Q' by lra.
    clear Q. minmax_lra.
Qed.

Lemma logScore_cert_sound (n d m k : Z) :
  logScore_cert n d m k = true -> logScore (IZR n / IZR d) (IZR m) = IZR k.
Proof.
  unfold logScore_cert. rewrite !andb_true_iff, !orb_true_iff.
  intros [[[[[[Hn Hd] Hm] Hk0] Hk100] Hlo] Hhi].
  revert Hlo Hhi.
  apply Z.leb_le in Hn, Hm, Hk0, Hk100. apply Z.ltb_lt in Hd.
  pose proof (IZR_le _ _ Hn) as Rn. pose proof (IZR_lt _ _ Hd) as Rd.
  pose proof (IZR_le _ _ Hm) as Rm.
  assert (0 <= IZR n / IZR d) as Hv
    by (apply Rmult_le_pos; [lra | left; apply Rinv_0_lt_compat; lra]).
  rewrite logScore_ln.
  replace (Math_max 0 (IZR n / IZR d)) with (IZR n / IZR d) by minmax_lra.
  replace (Math_max 1 (IZR m)) with (IZR m) by minmax_lra.
  replace (1 + IZR n / IZR d) with (IZR (n + d) / IZR d)
    by (rewrite plus_IZR; field; lra).
  replace (1 + IZR m) with (IZR (m + 1)) by (rewrite plus_IZR; lra).
  assert (0 < IZR (n + d) / IZR d) as Ha.
  { apply Rmult_lt_0_compat; [apply IZR_lt; lia | apply Rinv_0_lt_compat; lra]. }
  assert (1 < IZR (m + 1)) as Hb by (apply IZR_lt; lia).
  intros Hlo Hhi.
  apply round_log_ratio with (q := 200%nat);
    [exact Ha | exact Hb | split; assumption
    | rewrite INR_IZR_INZ; reflexivity | | ].
  - destruct Hlo as [E | E]; [left; apply Z.eqb_eq, E | ].
    destruct (Z.eq_dec k 0) as [-> | Hne]; [left; reflexivity | right].
    apply Z.leb_le in E.
    apply pow_le_of_Z; [exact Hd | clear - Hk0 Hne; lia | exact E].
  - destruct Hhi as [E | E]; [left; apply Z.eqb_eq, E | right].
    apply Z.ltb_lt in E.
    apply pow_lt_of_Z; [exact Hd | clear - Hk0; lia | exact E].
Qed.

End Certificate.

(** ** The head of the sorted entries *)

Section Selection.

Lemma all_le_first_greatest (e : entry) (l : list entry) :
  first_greatest e l -> forall x, In x l -> snd x <= snd e.
Proof.
  intros (pre & post & -> & Hpre & Hpost) x Hx.
  apply in_app_or in Hx. destruct Hx as [Hx | [<- | Hx]].
  - left; apply Hpre, Hx.
  - right; reflexivity.
  - apply Hpost, Hx.
Qed.

Lemma first_greatest_In (e : entry) (l : list entry) :
  first_greatest e l -> In e l.
Proof.
  intros (pre & post & -> & _). apply in_or_app. right; left; reflexivity.
Qed.

(** There is one first greatest entry. *)
Lemma first_greatest_unique (e e' : entry) (l : list entry) :
  first_greatest e l -> first_greatest e' l -> e = e'.
Proof.
  intros (pre & post & E & Hpre & Hpost) (pre' & post' & E' & Hpre' & Hpost').
  subst l. revert pre' E' Hpre Hpre'.
  induction pre as [| x pre IH]; intros [| x' pre'] E' Hpre Hpre'; simpl in E'.
  - congruence.
  - injection E' as <- E'.
    assert (In e' post) as I by (rewrite E'; apply in_or_app; right; left; reflexivity).
    pose proof (Hpost _ I). pose proof (Hpre' e (or_introl eq_refl)). lra.
  - injection E' as -> E'.
    assert (In e post') as I by (rewrite <- E'; apply in_or_app; right; left; reflexivity).
    pose proof (Hpost' _ I). pose proof (Hpre e' (or_introl eq_refl)). lra.
  - injection E' as <- E'.
    apply (IH pre' E').
    + intros y Hy; apply Hpre; right; exact Hy.
    + intros y Hy; apply Hpre'; right; exact Hy.
Qed.

(** The sorted array starts with the first greatest entry of the
    array. *)
Lemma Array_sort_head (l : list entry) :
  l <> [] ->
  exists e rest, Array_sort byScoreDesc l = e :: rest /\ first_greatest e l.
Proof.
  induction l as [| a l IH]; [congruence | intros _].
  destruct l as [| a' l'].
  - exists a, []. split; [reflexivity |].
    exists [], []. split; [reflexivity | split; intros x []].
  - destruct IH as (m & rest & Hs & Hm); [discriminate |].
    change (Array_sort byScoreDesc (a :: a' :: l'))
      with (insert byScoreDesc a (Array_sort byScoreDesc (a' :: l'))).
    rewrite Hs. simpl. unfold byScoreDesc at 1.
    destruct (gt (snd m - snd a) 0) eqn:G.
    + apply gt_true in G. exists m, (insert byScoreDesc a rest).
      split; [reflexivity |].
      destruct Hm as (pre & post & E & Hpre & Hpost).
      exists (a :: pre), post. rewrite E.
      split; [reflexivity | split; [| exact Hpost]].
      intros x [<- | Hx]; [lra | apply Hpre, Hx].
    + apply gt_false in G. exists a, (m :: rest).
      split; [reflexivity |].
      exists [], (a' :: l'). split; [reflexivity | split; [intros x [] |]].
      intros x Hx. pose proof (all_le_first_greatest _ _ Hm x Hx). lra.
Qed.

Lemma pickAuraType_unfold (i : AuraInputs) (b : AuraBreakdown) :
  pickAuraType i b
  = if isLurker i b then Some LURKER
    else match Array_sort byScoreDesc (entriesOf i b) with
         | e :: _ => Some (fst e)
         | [] => None
         end.
Proof. reflexivity. Qed.

Lemma pickAuraType_lurker (i : AuraInputs) (b : AuraBreakdown) :
  isLurker i b = true -> pickAuraType i b = Some LURKER.
Proof. intros H. rewrite pickAuraType_unfold, H. reflexivity. Qed.

Lemma pickAuraType_greatest (i : AuraInputs) (b : AuraBreakdown) :
  isLurker i b = false ->
  exists e, pickAuraType i b = Some (fst e) /\ first_greatest e (entriesOf i b).
Proof.
  intros H. rewrite pickAuraType_unfold, H.
  destruct (Array_sort_head (entriesOf i b)) as (e & rest & -> & G);
    [discriminate |].
  exists e. split; [reflexivity | exact G].
Qed.

(** [pickAuraType] always returns an archetype. *)
Lemma pickAuraType_total (i : AuraInputs) (b : AuraBreakdown) :
  exists t, pickAuraType i b = Some t.
Proof.
  destruct (isLurker i b) eqn:L.
  - exists LURKER. apply pickAuraType_lurker, L.
  - destruct (pickAuraType_greatest i b L) as (e & -> & _). now exists (fst e).
Qed.

Lemma computeAura_unfold (i : AuraInputs) :
  computeAura i
  = match pickAuraType i (breakdownOf i) with
    | None => None
    | Some t =>
        Some (mkResult t (scoreOf t (breakdownOf i))
                       (meta_emoji (meta t)) (meta_label (meta t))
                       (meta_description (meta t)) (breakdownOf i))
    end.
Proof. reflexivity. Qed.

(** [computeAura] always returns a result, built from the selected
    archetype. *)
Lemma computeAura_total (i : AuraInputs) :
  exists t,
    pickAuraType i (breakdownOf i) = Some t
    /\ computeAura i
       = Some (mkResult t (scoreOf t (breakdownOf i))
                        (meta_emoji (meta t)) (meta_label (meta t))
                        (meta_description (meta t)) (breakdownOf i)).
Proof.
  destruct (pickAuraType_total i (breakdownOf i)) as [t Ht].
  exists t. split; [exact Ht |]. rewrite computeAura_unfold, Ht. reflexivity.
Qed.

End Selection.

(** ** Ranges of the result *)

Lemma int_in_bounds (lo hi : Z) (x : number) :
  int_in lo hi x -> IZR lo <= x <= IZR hi.
Proof. intros (z & -> & H1 & H2). split; apply IZR_le; assumption. Qed.

Lemma logScore_int (value cap : R) : int_in 0 100 (logScore value cap).
Proof. apply logScore_range. Qed.

Lemma styleOf_int (i : AuraInputs) : int_in 0 100 (styleOf i).
Proof. apply Math_round_between. apply clamp_bounds; lra. Qed.

Lemma weightedOf_bounds (i : AuraInputs) : 0 <= weightedOf (breakdownOf i) <= 100.
Proof.
  unfold weightedOf, breakdownOf; simpl.
  pose proof (int_in_bounds _ _ _ (logScore_int (activityRaw i) 120)).
  pose proof (int_in_bounds _ _ _ (logScore_int (reactionsReceived i) 250)).
  pose proof (int_in_bounds _ _ _ (logScore_int (followers i) 2000)).
  pose proof (int_in_bounds _ _ _ (styleOf_int i)).
  pose proof (int_in_bounds _ _ _
                (logScore_int (Math_max 0 (nullish (baseTxCount i) 0)) 40)).
  unfold activityOf, impactOf, socialOf, onchainOf. lra.
Qed.

Lemma scoreOf_int (t : AuraType) (i : AuraInputs) :
  int_in 0 100 (scoreOf t (breakdownOf i)).
Proof.
  pose proof (weightedOf_bounds i) as W. unfold scoreOf.
  destruct (AuraType_eqb t LURKER).
  - destruct (Math_round_between 0 60 (clamp (weightedOf (breakdownOf i) * 0.7 + 10) 0 60))
      as (z & E & Hz); [apply clamp_bounds; lra |].
    exists z; split; [exact E | lia].
  - apply Math_round_between, clamp_bounds; lra.
Qed.

Lemma scoreOf_lurker_int (i : AuraInputs) :
  int_in 10 60 (scoreOf LURKER (breakdownOf i)).
Proof.
  pose proof (weightedOf_bounds i) as W. unfold scoreOf; simpl.
  apply Math_round_between.
  set (w := weightedOf (breakdownOf i)) in *. clearbody w. minmax_lra.
Qed.

(** C1.  For every input record [computeAura] returns a result; its score
    is an integer in [0,100]; each of the five dimensions of its breakdown
    (activity, impact, social, style, onchain) is an integer in [0,100];
    and when the returned type is LURKER the score is in [10,60]. *)
Theorem computeAura_ranges (i : AuraInputs) :
  exists r,
    computeAura i = Some r
    /\ int_in 0 100 (score r)
    /\ int_in 0 100 (activity (breakdown r))
    /\ int_in 0 100 (impact (breakdown r))
    /\ int_in 0 100 (social (breakdown r))
    /\ int_in 0 100 (style (breakdown r))
    /\ int_in 0 100 (onchain (breakdown r))
    /\ (type r = LURKER -> int_in 10 60 (score r)).
Proof.
  destruct (computeAura_total i) as (t & _ & E).
  eexists; split; [exact E |].
  cbn [score type breakdown breakdownOf activity impact social style onchain].
  repeat split.
  - apply scoreOf_int.
  - unfold activityOf; apply logScore_int.
  - unfold impactOf; apply logScore_int.
  - unfold socialOf; apply logScore_int.
  - apply styleOf_int.
  - unfold onchainOf; apply logScore_int.
  - intros ->. apply scoreOf_lurker_int.
Qed.

(** ** Sanitising the inputs *)

Lemma clamp01_idem (x : R) : clamp01 (clamp01 x) = clamp01 x.
Proof. apply clamp_idem; lra. Qed.

Lemma Math_max_0_idem (x : R) : Math_max 0 (Math_max 0 x) = Math_max 0 x.
Proof. minmax_lra. Qed.

(** What [sanitize] leaves unchanged: every dimension but activity. *)
Lemma impactOf_sanitize (i : AuraInputs) : impactOf (sanitize i) = impactOf i.
Proof. exact (logScore_floor (reactionsReceived i) 250). Qed.

Lemma socialOf_sanitize (i : AuraInputs) : socialOf (sanitize i) = socialOf i.
Proof. exact (logScore_floor (followers i) 2000). Qed.

Lemma styleOf_sanitize (i : AuraInputs) : styleOf (sanitize i) = styleOf i.
Proof. unfold styleOf; simpl. now rewrite !clamp01_idem. Qed.

Lemma onchainOf_sanitize (i : AuraInputs) : onchainOf (sanitize i) = onchainOf i.
Proof. unfold onchainOf; simpl. fold (Math_max 0 (nullish (baseTxCount i) 0)).
       now rewrite Math_max_0_idem. Qed.

Lemma pickAuraType_sanitize (i : AuraInputs) (b : AuraBreakdown) :
  pickAuraType (sanitize i) b = pickAuraType i b.
Proof.
  rewrite !pickAuraType_unfold.
  unfold isLurker, entriesOf, builderOf, thinkerOf; simpl.
  fold (Math_max 0 (casts i)); fold (Math_max 0 (replies i)).
  now rewrite !Math_max_0_idem, !clamp01_idem.
Qed.

(** The activity dimension sees the raw sum [casts + replies * 1.2]; it
    is the same after [sanitize] when flooring the two counts does not
    change the floored sum, as when neither count is negative. *)
Lemma computeAura_sanitize_same_sum (i : AuraInputs) :
  Math_max 0 (activityRaw (sanitize i)) = Math_max 0 (activityRaw i) ->
  computeAura (sanitize i) = computeAura i.
Proof.
  intros H. rewrite !computeAura_unfold.
  assert (breakdownOf (sanitize i) = breakdownOf i) as ->.
  { unfold breakdownOf.
    rewrite impactOf_sanitize, socialOf_sanitize, styleOf_sanitize,
      onchainOf_sanitize.
    f_equal. unfold activityOf.
    rewrite <- (logScore_floor (activityRaw (sanitize i))), H.
    apply logScore_floor. }
  now rewrite pickAuraType_sanitize.
Qed.

Lemma computeAura_sanitize_nonneg (i : AuraInputs) :
  0 <= casts i -> 0 <= replies i -> computeAura (sanitize i) = computeAura i.
Proof.
  intros Hc Hr. apply computeAura_sanitize_same_sum.
  unfold activityRaw; simpl. minmax_lra.
Qed.

(** C2 fails on the code.  On the input [{casts: -240, replies: 100,
    reactionsReceived: 0, followers: 0}] the activity dimension is 0,
    because [computeAura] floors the sum -240 + 100 * 1.2 and not the two
    counts; on the sanitised input it is 100.  So [computeAura] and
    [computeAura] after [sanitize] differ. *)
Theorem computeAura_sanitize_differs :
  (exists r, computeAura negative_casts = Some r
             /\ activity (breakdown r) = 0)
  /\ (exists r, computeAura (sanitize negative_casts) = Some r
                /\ activity (breakdown r) = 100)
  /\ computeAura negative_casts <> computeAura (sanitize negative_casts).
Proof.
  assert (activityOf negative_casts = 0) as A0.
  { unfold activityOf. apply logScore_nonpos. unfold activityRaw; simpl. lra. }
  assert (activityOf (sanitize negative_casts) = 100) as A1.
  { unfold activityOf. apply logScore_saturates; [lra |].
    unfold activityRaw; simpl. minmax_lra. }
  destruct (computeAura_total negative_casts) as (t & _ & E).
  destruct (computeAura_total (sanitize negative_casts)) as (t' & _ & E').
  split; [| split].
  - eexists; split; [exact E | exact A0].
  - eexists; split; [exact E' | exact A1].
  - rewrite E, E'. intros F.
    apply (f_equal (option_map (fun r => activity (breakdown r)))) in F.
    simpl in F. rewrite A0, A1 in F. injection F as F. lra.
Qed.

(** ** The LURKER override *)

Lemma isLurker_true (i : AuraInputs) (b : AuraBreakdown) :
  isLurker i b = true <-> override i b.
Proof.
  unfold isLurker, override.
  rewrite orb_true_iff, !andb_true_iff, !le_true. tauto.
Qed.

Lemma isLurker_false (i : AuraInputs) (b : AuraBreakdown) :
  isLurker i b = false <-> ~ override i b.
Proof.
  rewrite <- isLurker_true. destruct (isLurker i b); split; congruence.
Qed.

Lemma computeAura_lurker (i : AuraInputs) :
  override i (breakdownOf i) ->
  exists r, computeAura i = Some r /\ breakdown r = breakdownOf i
            /\ type r = LURKER.
Proof.
  intros H. apply isLurker_true in H.
  rewrite computeAura_unfold, (pickAuraType_lurker _ _ H).
  eexists; split; [reflexivity | split; reflexivity].
Qed.

Lemma one_cast_override (l m b : option number) :
  override (one_cast l m b) (breakdownOf (one_cast l m b)).
Proof. left; simpl. minmax_lra. Qed.

Lemma one_cast_is_lurker (l m b : option number) :
  exists r, computeAura (one_cast l m b) = Some r /\ type r = LURKER.
Proof.
  destruct (computeAura_lurker _ (one_cast_override l m b)) as (r & E & _ & T).
  now exists r.
Qed.

(** C3.  When the floored [casts + replies] is at most 2, or the activity,
    impact and social dimensions of the breakdown are all at most 12, the
    returned type is LURKER, whatever the other inputs (and so whatever
    the five affinities) are. *)
Theorem lurker_override (i : AuraInputs) :
  Math_max 0 (casts i) + Math_max 0 (replies i) <= 2
  \/ (activity (breakdownOf i) <= 12 /\ impact (breakdownOf i) <= 12
      /\ social (breakdownOf i) <= 12) ->
  exists r, computeAura i = Some r /\ breakdown r = breakdownOf i
            /\ type r = LURKER.
Proof. exact (computeAura_lurker i). Qed.

(** The scenario casts = 1, replies = 0, reactionsReceived = 1000,
    followers = 1000000 is LURKER. *)
Lemma lurker_override_witness :
  Math_max 0 1 + Math_max 0 0 <= 2
  /\ exists r, computeAura (mkInputs 1 0 1000 1000000 None None None) = Some r
               /\ type r = LURKER.
Proof.
  split; [minmax_lra |].
  destruct (lurker_override (mkInputs 1 0 1000 1000000 None None None))
    as (r & E & _ & T); [left; simpl; minmax_lra |].
  exists r; split; assumption.
Defined.

(** C10.  When the floored [casts + replies] exceeds 2 and one of the
    activity, impact and social dimensions exceeds 12, the returned type
    is one of BUILDER, CREATOR, INFLUENCER, THINKER, DEGEN, and not
    LURKER. *)
Theorem lurker_only_by_override (i : AuraInputs) :
  2 < Math_max 0 (casts i) + Math_max 0 (replies i) ->
  12 < activity (breakdownOf i) \/ 12 < impact (breakdownOf i)
  \/ 12 < social (breakdownOf i) ->
  exists r, computeAura i = Some r /\ breakdown r = breakdownOf i
            /\ In (type r) [BUILDER; CREATOR; INFLUENCER; THINKER; DEGEN]
            /\ type r <> LURKER.
Proof.
  intros H1 H2.
  assert (isLurker i (breakdownOf i) = false) as L.
  { apply isLurker_false. unfold override. lra. }
  destruct (pickAuraType_greatest _ _ L) as (e & P & G).
  rewrite computeAura_unfold, P.
  eexists; split; [reflexivity | split; [reflexivity |]]; simpl.
  apply first_greatest_In in G. unfold entriesOf in G. simpl in G.
  destruct G as [<- | [<- | [<- | [<- | [<- | []]]]]]; simpl;
    (split; [tauto | discriminate]).
Qed.

(** ** Evaluating the engine on given inputs *)

Lemma logScore_at (n d m k : Z) (x c : R) :
  x = IZR n / IZR d -> c = IZR m -> logScore_cert n d m k = true ->
  logScore x c = IZR k.
Proof. intros -> ->. apply logScore_cert_sound. Qed.

Lemma Math_round_at (z : Z) (x : R) : x = IZR z -> Math_round x = IZR z.
Proof. intros ->. apply Math_round_IZR. Qed.

Lemma pickAuraType_is (i : AuraInputs) (b : AuraBreakdown) (e : entry) :
  ~ override i b -> first_greatest e (entriesOf i b) ->
  pickAuraType i b = Some (fst e).
Proof.
  intros L G. apply isLurker_false in L.
  destruct (pickAuraType_greatest i b L) as (e' & P & G').
  now rewrite (first_greatest_unique _ _ _ G G').
Qed.

(** Settle the tests [a > b] and [a <= b] of a goal between numbers. *)
Ltac decide_tests :=
  repeat match goal with
         | |- context [gt ?a ?b] =>
             first [ rewrite (proj2 (gt_true a b)) by minmax_lra
                   | rewrite (proj2 (gt_false a b)) by minmax_lra ]
         | |- context [le ?a ?b] =>
             first [ rewrite (proj2 (le_true a b)) by minmax_lra
                   | rewrite (proj2 (le_false a b)) by minmax_lra ]
         end.

Lemma onchain_scenario_breakdown :
  breakdownOf onchain_scenario = mkBreakdown 54 32 40 0 100.
Proof.
  unfold breakdownOf, activityOf, impactOf, socialOf, styleOf, onchainOf,
    activityRaw; simpl.
  f_equal.
  - apply (logScore_at 124 10 120 54); [lra | reflexivity | vm_compute; reflexivity].
  - apply (logScore_at 5 1 250 32); [lra | reflexivity | vm_compute; reflexivity].
  - apply (logScore_at 20 1 2000 40); [lra | reflexivity | vm_compute; reflexivity].
  - apply (Math_round_at 0). minmax_lra.
  - apply logScore_saturates; minmax_lra.
Qed.

Lemma onchain_scenario_type :
  pickAuraType onchain_scenario (breakdownOf onchain_scenario) = Some DEGEN.
Proof.
  rewrite onchain_scenario_breakdown.
  apply (pickAuraType_is _ _ (DEGEN, 80.6)).
  - unfold override; simpl. intros [H | H]; minmax_lra.
  - exists [ (BUILDER, 38.8); (CREATOR, 10.2); (INFLUENCER, 37.8);
             (THINKER, 18.9) ], [].
    split; [| split].
    + unfold entriesOf, builderOf, creatorOf, influencerOf, thinkerOf, degenOf;
        simpl. decide_tests.
      repeat (f_equal; try lra).
    + intros x [<- | [<- | [<- | [<- | []]]]]; simpl; lra.
    + intros x [].
Qed.

(** C9.  On [{casts: 10, replies: 2, reactionsReceived: 5, followers: 20,
    baseTxCount: 60}], both ratios absent, the onchain dimension is 100
    and the archetype is DEGEN. *)
Theorem onchain_scenario_is_degen :
  exists r,
    computeAura (mkInputs 10 2 5 20 None None (Some 60)) = Some r
    /\ onchain (breakdown r) = 100
    /\ type r = DEGEN.
Proof.
  fold onchain_scenario.
  rewrite computeAura_unfold, onchain_scenario_type.
  eexists; split; [reflexivity |]; cbn [breakdown type]. split; [| reflexivity].
  now rewrite onchain_scenario_breakdown.
Qed.

Lemma lurker_only_by_override_witness :
  2 < Math_max 0 10 + Math_max 0 2
  /\ 12 < activity (breakdownOf onchain_scenario)
  /\ exists r, computeAura onchain_scenario = Some r /\ type r <> LURKER.
Proof.
  assert (12 < activity (breakdownOf onchain_scenario)) as A
      by (rewrite onchain_scenario_breakdown; simpl; lra).
  split; [minmax_lra | split; [exact A |]].
  destruct (lurker_only_by_override onchain_scenario) as (r & E & _ & _ & T);
    [simpl; minmax_lra | left; exact A |].
  exists r; split; assumption.
Defined.

(** ** The greatest affinity, ties to the first listed *)






(** ** The normalisation formula *)

(** C4.  For every raw value and cap, [logScore] is
    round (clamp (log (1 + max (0, v)) / log (1 + max (1, c)) * 100, 0, 100))
    with the logarithm taken to any base: the base cancels in the
    ratio. *)
Theorem logScore_formula (b v c : R) :
  0 < b -> b <> 1 -> logScore v c = logScore_spec b v c.
Proof.
  intros Hb Hb1. unfold logScore, logScore_spec.
  rewrite (log_ratio_base b) by (assumption || apply logScore_cap_gt_1).
  reflexivity.
Qed.

Lemma logScore_formula_witness :
  0 < 2 /\ 2 <> 1 /\ logScore 7 120 = logScore_spec 2 7 120.
Proof.
  split; [lra | split; [lra |]].
  apply (logScore_formula 2 7 120); lra.
Defined.

(** ** Raising one raw metric *)

Lemma Math_max_mono (a x y : R) : x <= y -> Math_max a x <= Math_max a y.
Proof. intros H; minmax_lra. Qed.

Lemma breakdown_computeAura (i : AuraInputs) :
  exists r, computeAura i = Some r /\ breakdown r = breakdownOf i.
Proof.
  destruct (computeAura_total i) as (t & _ & E).
  eexists; split; [exact E | reflexivity].
Qed.

Lemma dimension_of_mono (m : Metric) (i : AuraInputs) (x : number) :
  metric m i <= x ->
  dimension_of m (breakdownOf i) <= dimension_of m (breakdownOf (with_metric m x i)).
Proof.
  intros H; destruct m; simpl in *;
    unfold activityOf, impactOf, socialOf, onchainOf, activityRaw; simpl;
    apply logScore_mono; try lra.
  apply Math_max_mono; exact H.
Qed.

(** C6.  For each raw count metric (casts, replies, reactionsReceived,
    followers, baseTxCount), replacing it by a larger value, all other
    fields kept, does not lower the dimension it feeds: activity for casts
    and replies, impact for reactionsReceived, social for followers,
    onchain for baseTxCount. *)
Theorem raising_a_metric (m : Metric) (i : AuraInputs) (x : number) :
  metric m i <= x ->
  exists r r',
    computeAura i = Some r
    /\ computeAura (with_metric m x i) = Some r'
    /\ dimension_of m (breakdown r) <= dimension_of m (breakdown r').
Proof.
  intros H.
  destruct (breakdown_computeAura i) as (r & E & B).
  destruct (breakdown_computeAura (with_metric m x i)) as (r' & E' & B').
  exists r, r'. rewrite B, B'.
  split; [exact E | split; [exact E' | apply dimension_of_mono, H]].
Qed.

(** Raising the replies of the onchain scenario from 2 to 50. *)
Lemma raising_a_metric_witness :
  metric Replies onchain_scenario <= 50
  /\ exists r r',
       computeAura onchain_scenario = Some r
       /\ computeAura (with_metric Replies 50 onchain_scenario) = Some r'
       /\ activity (breakdown r) <= activity (breakdown r').
Proof.
  assert (metric Replies onchain_scenario <= 50) as H by (simpl; lra).
  split; [exact H |].
  exact (raising_a_metric Replies onchain_scenario 50 H).
Defined.

(** ** Saturation *)

Lemma capped_dimension_logScore (d : Capped) (i : AuraInputs) :
  capped_dimension d (breakdownOf i) = logScore (raw_of d i) (cap_of d).
Proof. destruct d; reflexivity. Qed.

Lemma cap_of_ge_1 (d : Capped) : 1 <= cap_of d.
Proof. destruct d; simpl; lra. Qed.

(** C7.  For each dimension normalised against a cap (activity 120,
    impact 250, social 2000, onchain 40), a raw value at or above the cap
    gives the dimension exactly 100. *)
Theorem saturation_at_cap (d : Capped) (i : AuraInputs) :
  cap_of d <= raw_of d i ->
  exists r,
    computeAura i = Some r
    /\ capped_dimension d (breakdown r) = logScore (raw_of d i) (cap_of d)
    /\ capped_dimension d (breakdown r) = 100.
Proof.
  intros H.
  destruct (breakdown_computeAura i) as (r & E & B).
  exists r. rewrite B, capped_dimension_logScore.
  split; [exact E | split; [reflexivity |]].
  apply logScore_saturates; [apply cap_of_ge_1 | exact H].
Qed.

(** 1000000 followers, far above the cap 2000. *)
Lemma saturation_at_cap_witness :
  cap_of Social <= raw_of Social (mkInputs 1 0 1000 1000000 None None None)
  /\ exists r,
       computeAura (mkInputs 1 0 1000 1000000 None None None) = Some r
       /\ social (breakdown r) = 100.
Proof.
  assert (cap_of Social
          <= raw_of Social (mkInputs 1 0 1000 1000000 None None None)) as H
      by (simpl; lra).
  split; [exact H |].
  destruct (saturation_at_cap Social _ H) as (r & E & _ & S).
  exists r; split; [exact E | exact S].
Defined.

(** ** The strings of the result *)

Lemma result_of_meta (i : AuraInputs) :
  exists r,
    computeAura i = Some r
    /\ emoji r = meta_emoji (meta (type r))
    /\ label r = meta_label (meta (type r))
    /\ description r = meta_description (meta (type r)).
Proof.
  destruct (computeAura_total i) as (t & _ & E).
  eexists; split; [exact E | repeat split].
Qed.

(** C8 as stated fails on the code: on the onchain scenario the result is
    DEGEN and its description is not the one of the table, which writes
    the apostrophe of [You're] as the ASCII character; the code has the
    typographic one (U+2019). *)
Lemma degen_description_differs :
  exists r,
    computeAura (mkInputs 10 2 5 20 None None (Some 60)) = Some r
    /\ type r = DEGEN
    /\ (emoji r, label r, description r) <> spec_table (type r).
Proof.
  fold onchain_scenario.
  rewrite computeAura_unfold, onchain_scenario_type.
  eexists; split; [reflexivity | split; [reflexivity |]].
  cbn [emoji label description type meta meta_emoji meta_label
       meta_description spec_table].
  intros H. apply (f_equal snd) in H. cbn [snd] in H.
  apply String.eqb_neq in H; [exact H | vm_compute; reflexivity].
Qed.

(** C8, amended.  For every input the emoji and the label of the result
    are those of the table for the returned archetype; the description is
    the table's for every archetype but DEGEN, and for DEGEN it is the
    table's sentence with the typographic apostrophe (U+2019). *)
Theorem result_strings (i : AuraInputs) :
  exists r,
    computeAura i = Some r
    /\ emoji r = fst (fst (spec_table (type r)))
    /\ label r = snd (fst (spec_table (type r)))
    /\ (type r <> DEGEN -> description r = snd (spec_table (type r)))
    /\ (type r = DEGEN ->
        description r
        = "Onchain instincts. You’re early, often, and unbothered."%string).
Proof.
  destruct (result_of_meta i) as (r & E & He & Hl & Hd).
  exists r. rewrite He, Hl, Hd.
  split; [exact E |].
  destruct (type r); simpl; repeat split; congruence.
Qed.

(** ** More on [clamp] *)

(** X1.  With [min <= max], [clamp] returns a value between the two
    bounds: [n] itself when it lies between them, [min] when [n] is below
    and [max] when it is above. *)
Theorem clamp_within (n lo hi : R) :
  lo <= hi ->
  lo <= clamp n lo hi <= hi
  /\ (lo <= n <= hi -> clamp n lo hi = n)
  /\ (n <= lo -> clamp n lo hi = lo)
  /\ (hi <= n -> clamp n lo hi = hi).
Proof. intros H; repeat split; intros; minmax_lra. Qed.

Lemma clamp_within_witness :
  0 <= 1 /\ 0 <= clamp01 (3 / 2) <= 1 /\ clamp01 (3 / 2) = 1.
Proof.
  assert (0 <= 1) as H by lra.
  destruct (clamp_within (3 / 2) 0 1 H) as (B & _ & _ & A).
  split; [exact H | split; [exact B | apply A; lra]].
Defined.

(** X2.  With the bounds the wrong way round, [max < min], [clamp]
    returns [max] for every [n]. *)
Theorem clamp_inverted_bounds (n lo hi : R) : hi < lo -> clamp n lo hi = hi.
Proof. intros H; minmax_lra. Qed.

Lemma clamp_inverted_bounds_witness : 0 < 1 /\ clamp 5 1 0 = 0.
Proof. split; [lra | apply clamp_inverted_bounds; lra]. Defined.

(** X3.  Whatever the bounds, [clamp] is monotone in [n] and clamping
    twice is clamping once. *)
Theorem clamp_monotone_idempotent (n n' lo hi : R) :
  (n <= n' -> clamp n lo hi <= clamp n' lo hi)
  /\ clamp (clamp n lo hi) lo hi = clamp n lo hi.
Proof. split; [intros H |]; minmax_lra. Qed.

(** ** More on [logScore] *)

(** X4.  A raw value that is zero or negative scores 0, whatever the
    cap. *)
Theorem logScore_of_nonpositive (value cap : R) :
  value <= 0 -> logScore value cap = 0.
Proof.
  intros H. rewrite <- (logScore_floor value cap).
  replace (Math_max 0 value) with 0 by minmax_lra.
  apply logScore_nonpos; lra.
Qed.

Lemma logScore_of_nonpositive_witness : -3 <= 0 /\ logScore (-3) 250 = 0.
Proof. split; [lra | apply logScore_of_nonpositive; lra]. Defined.

(** X5.  A cap below 1 is read as the cap 1. *)
Theorem logScore_small_cap (value cap : R) :
  cap <= 1 -> logScore value cap = logScore value 1.
Proof.
  intros H. unfold logScore.
  replace (Math_max 1 cap) with (Math_max 1 1) by minmax_lra. reflexivity.
Qed.

Lemma logScore_small_cap_witness : 0 <= 1 /\ logScore 1 0 = logScore 1 1.
Proof. split; [lra | apply logScore_small_cap; lra]. Defined.

Lemma ln_ratio_antitone (a b b' : R) :
  1 <= a -> 1 < b -> b <= b' -> ln a / ln b' <= ln a / ln b.
Proof.
  intros Ha Hb Hbb.
  pose proof (ln_nonneg a Ha) as La. pose proof (ln_pos b Hb) as Lb.
  pose proof (ln_le b b' ltac:(lra) Hbb) as Lbb.
  unfold Rdiv. apply Rmult_le_compat_l; [exact La |].
  apply Rinv_le_contravar; assumption.
Qed.

(** X6.  Raising the cap never raises the score of a raw value. *)
Theorem logScore_cap_antitone (value cap cap' : R) :
  cap <= cap' -> logScore value cap' <= logScore value cap.
Proof.
  intros H. rewrite !logScore_ln.
  apply Math_round_mono, clamp_mono.
  apply Rmult_le_compat_r; [lra |].
  apply ln_ratio_antitone;
    [apply logScore_arg_ge_1 | apply logScore_cap_gt_1 | minmax_lra].
Qed.

Lemma logScore_cap_antitone_witness :
  40 <= 120 /\ logScore 10 120 <= logScore 10 40.
Proof. split; [lra | apply logScore_cap_antitone; lra]. Defined.

Lemma ln_ratio_ge_inv (a b : R) (p q : nat) :
  0 < a -> 1 < b -> (0 < q)%nat ->
  INR p / INR q <= ln a / ln b -> b ^ p <= a ^ q.
Proof.
  intros Ha Hb Hq H. apply Rnot_lt_le. intros C.
  pose proof (ln_ratio_lt a b p q Ha Hb Hq C). lra.
Qed.

Lemma ln_ratio_lt_inv (a b : R) (p q : nat) :
  0 < a -> 1 < b -> (0 < q)%nat ->
  ln a / ln b < INR p / INR q -> a ^ q < b ^ p.
Proof.
  intros Ha Hb Hq H. apply Rnot_le_lt. intros C.
  pose proof (ln_ratio_ge a b p q Ha Hb Hq C). lra.
Qed.

Lemma Math_round_inv (z : Z) (x : R) :
  Math_round x = IZR z -> IZR z - / 2 <= x < IZR z + / 2.
Proof.
  unfold Math_round. intros H. apply eq_IZR in H.
  pose proof (Zfloor_bound (x + / 2)) as B. rewrite H in B. lra.
Qed.

(** From the rounded value back to the two comparisons of powers. *)
Lemma round_log_ratio_inv (a b : R) (k : Z) (q : nat) :
  1 <= a -> 1 < b -> (0 <= k <= 100)%Z -> INR q = 200 ->
  Math_round (clamp (ln a / ln b * 100) 0 100) = IZR k ->
  b ^ Z.to_nat (2 * k - 1) <= a ^ q
  /\ (k = 100%Z \/ a ^ q < b ^ Z.to_nat (2 * k + 1)).
Proof.
  intros Ha Hb [Hk0 Hk100] Hq H.
  assert (0 < q)%nat as Qpos.
  { destruct q; [simpl in Hq; lra | lia]. }
  apply Math_round_inv in H.
  pose proof (IZR_le _ _ Hk0) as Rk0. pose proof (IZR_le _ _ Hk100) as Rk100.
  split.
  - destruct (Z.eq_dec k 0) as [-> | Hne].
    + simpl. apply pow_R1_Rle. exact Ha.
    + apply ln_ratio_ge_inv; [lra | exact Hb | exact Qpos |].
      rewrite INR_to_nat, Hq by lia. rewrite minus_IZR, mult_IZR.
      assert (1 <= IZR k) as K1 by (apply IZR_le; lia).
      assert (IZR k - / 2 <= ln a / ln b * 100) as Q by minmax_lra.
      lra.
  - destruct (Z.eq_dec k 100) as [-> | Hne]; [left; reflexivity | right].
    apply ln_ratio_lt_inv; [lra | exact Hb | exact Qpos |].
    rewrite INR_to_nat, Hq by lia. rewrite plus_IZR, mult_IZR.
    assert (IZR k <= 99) as K1 by (apply IZR_le; lia).
    assert (ln a / ln b * 100 < IZR k + / 2) as Q by minmax_lra.
    lra.
Qed.

Lemma INR_200 : INR 200 = 200.
Proof. rewrite INR_IZR_INZ. reflexivity. Qed.

(** X7.  The raw values of each score.  With v = max (0, value) and
    c = max (1, cap), [logScore value cap] is the integer k of [0,100]
    exactly when (1 + c) ^ (2k - 1) <= (1 + v) ^ 200 and, for k below
    100, (1 + v) ^ 200 < (1 + c) ^ (2k + 1). *)
Theorem logScore_level (value cap : R) (k : Z) :
  (0 <= k <= 100)%Z ->
  logScore value cap = IZR k
  <-> (1 + Math_max 1 cap) ^ Z.to_nat (2 * k - 1) <= (1 + Math_max 0 value) ^ 200
      /\ (k = 100%Z
          \/ (1 + Math_max 0 value) ^ 200
             < (1 + Math_max 1 cap) ^ Z.to_nat (2 * k + 1)).
Proof.
  intros Hk. rewrite logScore_ln.
  pose proof (logScore_arg_ge_1 value) as Ha.
  pose proof (logScore_cap_gt_1 cap) as Hb.
  split.
  - apply round_log_ratio_inv; [exact Ha | exact Hb | exact Hk | exact INR_200].
  - intros [Hlo Hhi].
    apply round_log_ratio with (q := 200%nat);
      [lra | exact Hb | exact Hk | exact INR_200 | right; exact Hlo | exact Hhi].
Qed.

Lemma logScore_level_witness :
  (0 <= 100 <= 100)%Z
  /\ (logScore 120 120 = 100
      <-> (1 + Math_max 1 120) ^ Z.to_nat (2 * 100 - 1)
          <= (1 + Math_max 0 120) ^ 200
          /\ (100%Z = 100%Z
              \/ (1 + Math_max 0 120) ^ 200
                 < (1 + Math_max 1 120) ^ Z.to_nat (2 * 100 + 1))).
Proof.
  assert (0 <= 100 <= 100)%Z as H by lia.
  split; [exact H | exact (logScore_level 120 120 100 H)].
Defined.

(** X8.  The score tops out before the cap: for every cap of at least 1
    there is a raw value strictly below the cap from which on the score
    is 100. *)
Theorem logScore_tops_out_below_cap (cap : R) :
  1 <= cap ->
  exists v, 0 < v < cap /\ forall value, v <= value -> logScore value cap = 100.
Proof.
  intros Hc.
  assert (0 < ln (1 + cap)) as HL by (apply ln_pos; lra).
  remember (ln (1 + cap)) as L eqn:EL.
  exists (exp (199 / 200 * L) - 1).
  assert (1 < exp (199 / 200 * L)) as E1.
  { rewrite <- exp_0. apply exp_increasing. lra. }
  assert (exp (199 / 200 * L) < 1 + cap) as E2.
  { replace (1 + cap) with (exp L) by (rewrite EL; apply exp_ln; lra).
    apply exp_increasing. lra. }
  split; [lra |].
  intros value Hv.
  assert (logScore (exp (199 / 200 * L) - 1) cap = 100) as S.
  { rewrite logScore_ln.
    replace (Math_max 0 (exp (199 / 200 * L) - 1)) with (exp (199 / 200 * L) - 1)
      by minmax_lra.
    replace (Math_max 1 cap) with cap by minmax_lra.
    replace (1 + (exp (199 / 200 * L) - 1)) with (exp (199 / 200 * L)) by lra.
    rewrite ln_exp, <- EL.
    replace (199 / 200 * L / L * 100) with (199 / 2) by (field; lra).
    rewrite clamp_id by lra.
    apply (Math_round_eq 100). lra. }
  apply Rle_antisym.
  - destruct (logScore_range value cap) as (z & -> & Hz). apply IZR_le; lia.
  - rewrite <- S. apply logScore_mono, Hv.
Qed.

Lemma logScore_tops_out_below_cap_witness :
  1 <= 120
  /\ exists v, 0 < v < 120
               /\ forall value, v <= value -> logScore value 120 = 100.
Proof.
  assert (1 <= 120) as H by lra.
  split; [exact H | exact (logScore_tops_out_below_cap 120 H)].
Defined.

(** ** What [computeAura] reads *)

Lemma logScore_same_floor (x y cap : R) :
  Math_max 0 x = Math_max 0 y -> logScore x cap = logScore y cap.
Proof.
  intros H. rewrite <- (logScore_floor x), <- (logScore_floor y), H. reflexivity.
Qed.

(** X9.  Two input records give the same result when they agree on the
    floored [casts], the floored [replies], the floored sum
    [casts + replies * 1.2], the floored [reactionsReceived] and
    [followers], the two ratios clamped into [0,1] and the floored
    [baseTxCount], an absent optional field being read as 0. *)
Theorem computeAura_reading (i j : AuraInputs) :
  same_reading i j -> computeAura i = computeAura j.
Proof.
  intros (Hc & Hr & Ha & Hi & Hs & Hl & Hm & Hb).
  rewrite !computeAura_unfold.
  assert (breakdownOf i = breakdownOf j) as ->.
  { unfold breakdownOf, activityOf, impactOf, socialOf, styleOf, onchainOf,
      activityRaw.
    rewrite (logScore_same_floor _ _ 120 Ha), (logScore_same_floor _ _ 250 Hi),
      (logScore_same_floor _ _ 2000 Hs), Hl, Hm, Hb. reflexivity. }
  assert (pickAuraType i (breakdownOf j) = pickAuraType j (breakdownOf j)) as ->.
  { rewrite !pickAuraType_unfold.
    unfold isLurker, entriesOf, builderOf, thinkerOf.
    rewrite Hc, Hr, Hl. reflexivity. }
  reflexivity.
Qed.

(** A negative count of reactions, an absent ratio, a ratio above 1 and
    an absent transaction count against 0, a negative ratio, 1 and a
    negative transaction count. *)
Lemma computeAura_reading_witness :
  same_reading (mkInputs 3 1 (-5) 10 None (Some 2) None)
               (mkInputs 3 1 0 10 (Some (-1)) (Some 1) (Some (-7)))
  /\ computeAura (mkInputs 3 1 (-5) 10 None (Some 2) None)
     = computeAura (mkInputs 3 1 0 10 (Some (-1)) (Some 1) (Some (-7))).
Proof.
  assert (same_reading (mkInputs 3 1 (-5) 10 None (Some 2) None)
            (mkInputs 3 1 0 10 (Some (-1)) (Some 1) (Some (-7)))) as H.
  { unfold same_reading; simpl. repeat split; minmax_lra. }
  split; [exact H | exact (computeAura_reading _ _ H)].
Defined.

(** ** The style dimension *)

Lemma Math_round_le (z : Z) (x : R) : x <= IZR z -> Math_round x <= IZR z.
Proof. intros H. rewrite <- (Math_round_IZR z). apply Math_round_mono, H. Qed.

Lemma Math_round_ge (z : Z) (x : R) : IZR z - / 2 <= x -> IZR z <= Math_round x.
Proof. intros H. unfold Math_round. apply IZR_le, Zfloor_lub. lra. Qed.

Lemma clamp01_bounds (x : R) : 0 <= clamp01 x <= 1.
Proof. apply clamp_bounds; lra. Qed.

(** X10.  Without a long-cast ratio the style dimension is at most 45,
    without a media ratio at most 55, and without both it is 0. *)
Theorem style_without_a_ratio (i : AuraInputs) :
  exists r,
    computeAura i = Some r
    /\ (longCastRatio i = None -> style (breakdown r) <= 45)
    /\ (mediaCastRatio i = None -> style (breakdown r) <= 55)
    /\ (longCastRatio i = None -> mediaCastRatio i = None ->
        style (breakdown r) = 0).
Proof.
  destruct (breakdown_computeAura i) as (r & E & B).
  exists r. rewrite B. split; [exact E |].
  cbn [breakdownOf style]. unfold styleOf.
  pose proof (clamp01_bounds (nullish (longCastRatio i) 0)) as L.
  pose proof (clamp01_bounds (nullish (mediaCastRatio i) 0)) as M.
  assert (clamp01 0 = 0) as Z0 by minmax_lra.
  split; [| split].
  - intros H. rewrite H in *. cbn [nullish] in *. rewrite Z0.
    apply (Math_round_le 45).
    set (m := clamp01 (nullish (mediaCastRatio i) 0)) in *. clearbody m.
    minmax_lra.
  - intros H. rewrite H in *. cbn [nullish] in *. rewrite Z0.
    apply (Math_round_le 55).
    set (l := clamp01 (nullish (longCastRatio i) 0)) in *. clearbody l.
    minmax_lra.
  - intros H1 H2. rewrite H1, H2. cbn [nullish]. rewrite Z0.
    apply (Math_round_at 0). minmax_lra.
Qed.

(** ** Which archetypes can be selected *)

(** The head of a list is its first greatest entry or is strictly below
    it. *)
Lemma first_greatest_head (x e : entry) (l : list entry) :
  first_greatest e (x :: l) -> e = x \/ snd x < snd e.
Proof.
  intros ([| y pre] & post & E & Hpre & _); simpl in E; injection E as <- E.
  - left; reflexivity.
  - right. apply Hpre. left; reflexivity.
Qed.

(** The dimensions of a breakdown of [computeAura] are not negative. *)
Lemma breakdownOf_nonneg (i : AuraInputs) :
  0 <= activity (breakdownOf i) /\ 0 <= impact (breakdownOf i)
  /\ 0 <= social (breakdownOf i) /\ 0 <= style (breakdownOf i)
  /\ 0 <= onchain (breakdownOf i).
Proof.
  cbn [breakdownOf activity impact social style onchain].
  unfold activityOf, impactOf, socialOf, onchainOf.
  pose proof (int_in_bounds _ _ _ (logScore_int (activityRaw i) 120)).
  pose proof (int_in_bounds _ _ _ (logScore_int (reactionsReceived i) 250)).
  pose proof (int_in_bounds _ _ _ (logScore_int (followers i) 2000)).
  pose proof (int_in_bounds _ _ _ (styleOf_int i)).
  pose proof (int_in_bounds _ _ _
                (logScore_int (Math_max 0 (nullish (baseTxCount i) 0)) 40)).
  lra.
Qed.

Lemma bonus_nonneg (b : bool) : 0 <= (if b then 10 else 0).
Proof. destruct b; lra. Qed.

(** A long-cast ratio above 0.35 gives a style of at least 19. *)
Lemma styleOf_long (i : AuraInputs) :
  gt (clamp01 (nullish (longCastRatio i) 0)) 0.35 = true -> 19 <= styleOf i.
Proof.
  intros G. apply gt_true in G. unfold styleOf.
  pose proof (clamp01_bounds (nullish (mediaCastRatio i) 0)) as M.
  set (l := clamp01 (nullish (longCastRatio i) 0)) in *.
  set (m := clamp01 (nullish (mediaCastRatio i) 0)) in *. clearbody l m.
  apply (Math_round_ge 19). minmax_lra.
Qed.

(** The selected archetype is LURKER or BUILDER, or its affinity is
    strictly above the builder affinity. *)
Lemma pickAuraType_above_builder (i : AuraInputs) (b : AuraBreakdown)
      (t : AuraType) :
  pickAuraType i b = Some t ->
  t = LURKER \/ t = BUILDER
  \/ (t = CREATOR /\ builderOf i b < creatorOf b)
  \/ (t = INFLUENCER /\ builderOf i b < influencerOf b)
  \/ (t = THINKER /\ builderOf i b < thinkerOf i b)
  \/ (t = DEGEN /\ builderOf i b < degenOf b).
Proof.
  destruct (isLurker i b) eqn:L.
  - rewrite (pickAuraType_lurker _ _ L). intros [= <-]. left; reflexivity.
  - destruct (pickAuraType_greatest _ _ L) as (e & -> & G). intros [= <-].
    right.
    pose proof (first_greatest_In _ _ G) as I.
    unfold entriesOf in G, I.
    destruct (first_greatest_head _ _ _ G) as [-> | S]; [left; reflexivity |].
    cbn [snd] in S.
    destruct I as [<- | [<- | [<- | [<- | [<- | []]]]]]; cbn [fst snd] in *;
      [left; reflexivity | right; left | right; right; left
      | right; right; right; left | right; right; right; right];
      (split; [reflexivity | exact S]).
Qed.

Lemma selected_above_builder (i : AuraInputs) :
  exists r,
    computeAura i = Some r /\ breakdown r = breakdownOf i
    /\ (type r = LURKER \/ type r = BUILDER
        \/ (type r = CREATOR
            /\ builderOf i (breakdownOf i) < creatorOf (breakdownOf i))
        \/ (type r = INFLUENCER
            /\ builderOf i (breakdownOf i) < influencerOf (breakdownOf i))
        \/ (type r = THINKER
            /\ builderOf i (breakdownOf i) < thinkerOf i (breakdownOf i))
        \/ (type r = DEGEN
            /\ builderOf i (breakdownOf i) < degenOf (breakdownOf i))).
Proof.
  destruct (computeAura_total i) as (t & P & E).
  eexists; split; [exact E | split; [reflexivity |]]. cbn [type].
  apply pickAuraType_above_builder, P.
Qed.

Lemma logScore_pos_raw (value cap : R) : 0 < logScore value cap -> 0 < value.
Proof.
  intros H. apply Rnot_le_lt. intros C.
  rewrite (logScore_nonpos value cap C) in H. lra.
Qed.

(** X11.  An archetype is selected only with its own signal: CREATOR and
    THINKER only with a style dimension above 0, DEGEN only with an
    onchain dimension above 0 (so with a positive [baseTxCount]), and
    INFLUENCER only with a social or an impact dimension above 0. *)
Theorem archetype_needs_its_signal (i : AuraInputs) :
  exists r,
    computeAura i = Some r
    /\ (type r = CREATOR \/ type r = THINKER -> 0 < style (breakdown r))
    /\ (type r = DEGEN ->
        0 < onchain (breakdown r) /\ 0 < nullish (baseTxCount i) 0)
    /\ (type r = INFLUENCER ->
        0 < social (breakdown r) \/ 0 < impact (breakdown r)).
Proof.
  destruct (selected_above_builder i) as (r & E & B & T).
  exists r. rewrite B. split; [exact E |].
  pose proof (breakdownOf_nonneg i) as (A0 & I0 & S0 & Y0 & O0).
  pose proof (bonus_nonneg (gt (Math_max 0 (replies i)) (Math_max 0 (casts i))))
    as Bb.
  unfold builderOf, creatorOf, influencerOf, thinkerOf, degenOf in T.
  split; [| split].
  - intros [H | H]; rewrite H in T;
      destruct T as [T | [T | [[T S] | [[T S] | [[T S] | [T S]]]]]];
      try discriminate.
    + lra.
    + destruct (gt (clamp01 (nullish (longCastRatio i) 0)) 0.35) eqn:G.
      * pose proof (styleOf_long i G). cbn [breakdownOf style]. lra.
      * lra.
  - intros H; rewrite H in T.
    destruct T as [T | [T | [[T S] | [[T S] | [[T S] | [T S]]]]]];
      try discriminate.
    assert (0 < onchain (breakdownOf i)) as O by lra.
    split; [exact O |].
    cbn [breakdownOf onchain] in O. unfold onchainOf in O.
    apply logScore_pos_raw in O. minmax_lra.
  - intros H; rewrite H in T.
    destruct T as [T | [T | [[T S] | [[T S] | [[T S] | [T S]]]]]];
      try discriminate.
    destruct (Rlt_dec 0 (social (breakdownOf i))); [left; assumption | right].
    lra.
Qed.

(** Without a positive ratio or transaction count the style and onchain
    dimensions are 0. *)
Lemma no_signal_breakdown (i : AuraInputs) :
  nullish (longCastRatio i) 0 <= 0 ->
  nullish (mediaCastRatio i) 0 <= 0 ->
  nullish (baseTxCount i) 0 <= 0 ->
  style (breakdownOf i) = 0 /\ onchain (breakdownOf i) = 0.
Proof.
  intros Hl Hm Hb.
  assert (clamp01 (nullish (longCastRatio i) 0) = 0) as L0 by minmax_lra.
  assert (clamp01 (nullish (mediaCastRatio i) 0) = 0) as M0 by minmax_lra.
  split.
  - cbn [breakdownOf style]. unfold styleOf. rewrite L0, M0.
    apply (Math_round_at 0). minmax_lra.
  - cbn [breakdownOf onchain]. unfold onchainOf.
    apply logScore_nonpos. minmax_lra.
Qed.

(** With style and onchain at 0, no long-cast bonus, and activity and
    impact not negative, [pickAuraType] selects LURKER, BUILDER or
    INFLUENCER. *)
Lemma pickAuraType_no_signal (i : AuraInputs) (b : AuraBreakdown)
      (t : AuraType) :
  style b = 0 -> onchain b = 0 ->
  clamp01 (nullish (longCastRatio i) 0) <= 0.35 ->
  0 <= activity b -> 0 <= impact b ->
  pickAuraType i b = Some t -> In t [LURKER; BUILDER; INFLUENCER].
Proof.
  intros Y O Hl A0 I0 P.
  apply pickAuraType_above_builder in P.
  pose proof (bonus_nonneg (gt (Math_max 0 (replies i)) (Math_max 0 (casts i))))
    as Bb.
  unfold builderOf, creatorOf, influencerOf, thinkerOf, degenOf in P.
  rewrite Y, O in P.
  apply gt_false in Hl. rewrite Hl in P.
  destruct P as [-> | [-> | [[T S] | [[-> S] | [[T S] | [T S]]]]]];
    simpl; try tauto; lra.
Qed.

(** X12.  With no positive optional field (each of [longCastRatio],
    [mediaCastRatio], [baseTxCount] absent, zero or negative) the style
    and onchain dimensions are 0 and the archetype is LURKER, BUILDER or
    INFLUENCER. *)
Theorem mandatory_fields_only (i : AuraInputs) :
  nullish (longCastRatio i) 0 <= 0 ->
  nullish (mediaCastRatio i) 0 <= 0 ->
  nullish (baseTxCount i) 0 <= 0 ->
  exists r,
    computeAura i = Some r
    /\ style (breakdown r) = 0 /\ onchain (breakdown r) = 0
    /\ In (type r) [LURKER; BUILDER; INFLUENCER].
Proof.
  intros Hl Hm Hb.
  destruct (computeAura_total i) as (t & P & E).
  destruct (no_signal_breakdown i Hl Hm Hb) as [Y O].
  pose proof (breakdownOf_nonneg i) as (A0 & I0 & _).
  eexists; split; [exact E |]. cbn [breakdown type].
  split; [exact Y | split; [exact O |]].
  apply (pickAuraType_no_signal i (breakdownOf i)); try assumption.
  minmax_lra.
Qed.

Lemma mandatory_fields_only_witness :
  nullish None 0 <= 0
  /\ exists r,
       computeAura (mkInputs 30 4 12 300 None None None) = Some r
       /\ In (type r) [LURKER; BUILDER; INFLUENCER].
Proof.
  assert (nullish None 0 <= 0) as H by (simpl; lra).
  split; [exact H |].
  destruct (mandatory_fields_only (mkInputs 30 4 12 300 None None None) H H H)
    as (r & E & _ & _ & T).
  exists r; split; assumption.
Defined.

(** ** The score *)

(** An integer above 12 is at least 13. *)
Lemma int_above_12 (x : R) : int_in 0 100 x -> 12 < x -> 13 <= x.
Proof.
  intros (z & -> & _) H. apply lt_IZR in H. apply IZR_le. lia.
Qed.

Lemma AuraType_eqb_eq (a b : AuraType) : AuraType_eqb a b = true <-> a = b.
Proof. destruct a, b; simpl; split; congruence. Qed.

(** The result by cases on the override test. *)
Lemma computeAura_cases (i : AuraInputs) :
  exists r,
    computeAura i = Some r /\ breakdown r = breakdownOf i
    /\ score r = scoreOf (type r) (breakdownOf i)
    /\ (isLurker i (breakdownOf i) = true -> type r = LURKER)
    /\ (isLurker i (breakdownOf i) = false -> type r <> LURKER).
Proof.
  rewrite computeAura_unfold.
  destruct (isLurker i (breakdownOf i)) eqn:L.
  - rewrite (pickAuraType_lurker _ _ L).
    eexists; split; [reflexivity |]. cbn [breakdown score type].
    repeat split; congruence.
  - destruct (pickAuraType_greatest _ _ L) as (e & -> & G).
    eexists; split; [reflexivity |]. cbn [breakdown score type].
    repeat split; try congruence.
    intros _. apply first_greatest_In in G. unfold entriesOf in G.
    destruct G as [<- | [<- | [<- | [<- | [<- | []]]]]]; discriminate.
Qed.

(** X13.  The score is never below 3: a LURKER scores at least 10, and
    any other result has a dimension among activity, impact and social
    of at least 13, which weighs at least 2.6. *)
Theorem score_at_least_3 (i : AuraInputs) :
  exists r, computeAura i = Some r /\ 3 <= score r.
Proof.
  destruct (computeAura_cases i) as (r & E & B & S & Lt & Lf).
  exists r. split; [exact E |]. rewrite S.
  destruct (isLurker i (breakdownOf i)) eqn:L.
  - rewrite (Lt eq_refl).
    pose proof (int_in_bounds _ _ _ (scoreOf_lurker_int i)). lra.
  - specialize (Lf eq_refl).
    unfold scoreOf.
    destruct (AuraType_eqb (type r) LURKER) eqn:Q;
      [apply AuraType_eqb_eq in Q; contradiction |].
    apply isLurker_false in L. unfold override in L.
    pose proof (breakdownOf_nonneg i) as (A0 & I0 & S0 & Y0 & O0).
    assert (2.6 <= weightedOf (breakdownOf i)) as W.
    { unfold weightedOf.
      cbn [breakdownOf activity impact social style onchain] in *.
      destruct (Rlt_dec 12 (activityOf i)) as [H | H].
      - pose proof (int_above_12 (activityOf i) (logScore_int _ _) H). lra.
      - destruct (Rlt_dec 12 (impactOf i)) as [H' | H'].
        + pose proof (int_above_12 (impactOf i) (logScore_int _ _) H'). lra.
        + destruct (Rlt_dec 12 (socialOf i)) as [H'' | H''].
          * pose proof (int_above_12 (socialOf i) (logScore_int _ _) H''). lra.
          * exfalso. apply L. right. lra. }
    apply (Math_round_ge 3).
    pose proof (weightedOf_bounds i) as [_ W100].
    rewrite clamp_id by lra. lra.
Qed.

(** With the archetype fixed the score is monotone in the dimensions. *)
Lemma scoreOf_mono (t : AuraType) (b b' : AuraBreakdown) :
  activity b <= activity b' -> impact b <= impact b' ->
  social b <= social b' -> style b <= style b' -> onchain b <= onchain b' ->
  scoreOf t b <= scoreOf t b'.
Proof.
  intros Ha Hi Hs Hy Ho. unfold scoreOf.
  assert (weightedOf b <= weightedOf b') as W by (unfold weightedOf; lra).
  destruct (AuraType_eqb t LURKER); apply Math_round_mono, clamp_mono; lra.
Qed.

(** X14.  Of two results of the same archetype, the one whose five
    dimensions are all at least the other's has at least the other's
    score. *)
Theorem score_monotone (i j : AuraInputs) (r r' : AuraResult) :
  computeAura i = Some r -> computeAura j = Some r' ->
  type r = type r' ->
  activity (breakdown r) <= activity (breakdown r') ->
  impact (breakdown r) <= impact (breakdown r') ->
  social (breakdown r) <= social (breakdown r') ->
  style (breakdown r) <= style (breakdown r') ->
  onchain (breakdown r) <= onchain (breakdown r') ->
  score r <= score r'.
Proof.
  intros E E' T.
  destruct (computeAura_total i) as (t & _ & F).
  destruct (computeAura_total j) as (t' & _ & F').
  rewrite F in E. rewrite F' in E'.
  injection E as <-. injection E' as <-.
  cbn [type breakdown score] in *. subst t'.
  apply scoreOf_mono.
Qed.

(** Two LURKER results: one cast and nothing else, and one cast with
    1000 reactions and 1000000 followers. *)
Lemma score_monotone_witness :
  exists r r',
    computeAura (one_cast None None None) = Some r'
    /\ computeAura (mkInputs 1 0 0 0 None None None) = Some r
    /\ type r = type r'
    /\ score r <= score r'.
Proof.
  destruct (computeAura_lurker (mkInputs 1 0 0 0 None None None))
    as (r & E & B & T); [left; simpl; minmax_lra |].
  destruct (computeAura_lurker (one_cast None None None) (one_cast_override _ _ _))
    as (r' & E' & B' & T').
  exists r, r'.
  split; [exact E' | split; [exact E | split; [congruence |]]].
  apply (score_monotone _ _ r r' E E'); [congruence | | | | |];
    rewrite B, B'; cbn [breakdownOf activity impact social style onchain].
  - apply Rle_refl.
  - unfold impactOf. apply logScore_mono. simpl. lra.
  - unfold socialOf. apply logScore_mono. simpl. lra.
  - apply Rle_refl.
  - apply Rle_refl.
Defined.


Lemma int_in_round (lo hi : Z) (x : R) : int_in lo hi x -> Math_round x = x.
Proof. intros (z & -> & _). apply Math_round_IZR. Qed.

(** The dimensions of a breakdown of [computeAura] are integers. *)
Lemma breakdownOf_int (i : AuraInputs) :
  int_in 0 100 (activity (breakdownOf i)) /\ int_in 0 100 (impact (breakdownOf i))
  /\ int_in 0 100 (social (breakdownOf i)) /\ int_in 0 100 (style (breakdownOf i))
  /\ int_in 0 100 (onchain (breakdownOf i)).
Proof.
  cbn [breakdownOf activity impact social style onchain].
  unfold activityOf, impactOf, socialOf, onchainOf.
  split; [apply logScore_int |].
  split; [apply logScore_int |].
  split; [apply logScore_int |].
  split; [apply styleOf_int | apply logScore_int].
Qed.

(** X22.  The score of a result that is not LURKER lies between the
    smallest and the greatest of its five dimensions. *)
Theorem score_between_dimensions (i : AuraInputs) :
  exists r,
    computeAura i = Some r
    /\ (type r <> LURKER ->
        Rmin (activity (breakdown r))
             (Rmin (impact (breakdown r))
                   (Rmin (social (breakdown r))
                         (Rmin (style (breakdown r)) (onchain (breakdown r)))))
        <= score r
        <= Rmax (activity (breakdown r))
                (Rmax (impact (breakdown r))
                      (Rmax (social (breakdown r))
                            (Rmax (style (breakdown r)) (onchain (breakdown r)))))).
Proof.
  destruct (computeAura_cases i) as (r & E & B & S & _).
  exists r. rewrite B, S. split; [exact E |].
  intros T. unfold scoreOf.
  destruct (AuraType_eqb (type r) LURKER) eqn:Q;
    [apply AuraType_eqb_eq in Q; contradiction |].
  pose proof (weightedOf_bounds i) as W. rewrite clamp_id by lra.
  destruct (breakdownOf_int i) as (Ia & Ii & Is & Iy & Io).
  unfold weightedOf in *.
  set (a := activity (breakdownOf i)) in *. set (m := impact (breakdownOf i)) in *.
  set (s := social (breakdownOf i)) in *. set (y := style (breakdownOf i)) in *.
  set (o := onchain (breakdownOf i)) in *.
  split.
  - assert (Math_round (Rmin a (Rmin m (Rmin s (Rmin y o))))
            = Rmin a (Rmin m (Rmin s (Rmin y o)))) as <-.
    { unfold Rmin; repeat destruct Rle_dec;
        eauto using int_in_round. }
    apply Math_round_mono. clearbody a m s y o.
    unfold Rmin; repeat destruct Rle_dec; lra.
  - assert (Math_round (Rmax a (Rmax m (Rmax s (Rmax y o))))
            = Rmax a (Rmax m (Rmax s (Rmax y o)))) as <-.
    { unfold Rmax; repeat destruct Rle_dec;
        eauto using int_in_round. }
    apply Math_round_mono. clearbody a m s y o.
    unfold Rmax; repeat destruct Rle_dec; lra.
Qed.

(** ** LURKER with counts that are not negative *)

(** Two counts that are not negative, with more than 2 casts and
    replies, give an activity of at least 23. *)
Lemma activityOf_active (i : AuraInputs) :
  0 <= casts i -> 0 <= replies i -> 2 < casts i + replies i ->
  23 <= activityOf i.
Proof.
  intros Hc Hr H.
  rewrite <- (logScore_at 2 1 120 23 2 120);
    [| lra | reflexivity | vm_compute; reflexivity].
  unfold activityOf. apply logScore_mono. unfold activityRaw. lra.
Qed.

Lemma override_iff_few_actions (i : AuraInputs) :
  0 <= casts i -> 0 <= replies i ->
  override i (breakdownOf i) <-> casts i + replies i <= 2.
Proof.
  intros Hc Hr.
  unfold override. cbn [breakdownOf activity impact social].
  replace (Math_max 0 (casts i)) with (casts i) by minmax_lra.
  replace (Math_max 0 (replies i)) with (replies i) by minmax_lra.
  split; [| tauto].
  intros [H | (H & _)]; [exact H |].
  apply Rnot_lt_le. intros C.
  pose proof (activityOf_active i Hc Hr C). lra.
Qed.

Lemma lurker_iff_override (i : AuraInputs) :
  exists r,
    computeAura i = Some r
    /\ (type r = LURKER <-> override i (breakdownOf i)).
Proof.
  destruct (computeAura_cases i) as (r & E & _ & _ & Lt & Lf).
  exists r. split; [exact E |].
  rewrite <- isLurker_true.
  destruct (isLurker i (breakdownOf i)); split; intros H.
  - reflexivity.
  - apply Lt; reflexivity.
  - exfalso. apply (Lf eq_refl), H.
  - discriminate.
Qed.

(** X15.  When [casts] and [replies] are not negative, the result is
    LURKER exactly when [casts + replies <= 2]: the second test of the
    override (activity, impact and social at most 12) then adds
    nothing. *)
Theorem lurker_iff_few_actions (i : AuraInputs) :
  0 <= casts i -> 0 <= replies i ->
  exists r,
    computeAura i = Some r
    /\ (type r = LURKER <-> casts i + replies i <= 2).
Proof.
  intros Hc Hr.
  destruct (lurker_iff_override i) as (r & E & T).
  exists r. split; [exact E |].
  rewrite T. apply override_iff_few_actions; assumption.
Qed.

Lemma lurker_iff_few_actions_witness :
  0 <= 1 /\ 0 <= 0
  /\ exists r,
       computeAura (mkInputs 1 0 1000 1000000 None None None) = Some r
       /\ (type r = LURKER <-> 1 + 0 <= 2).
Proof.
  assert (0 <= 1) as H1 by lra. assert (0 <= 0) as H0 by lra.
  split; [exact H1 | split; [exact H0 |]].
  exact (lurker_iff_few_actions (mkInputs 1 0 1000 1000000 None None None) H1 H0).
Defined.

(** ** The table of [meta] *)

(** X16.  The emoji, the label and the description each determine the
    archetype: no two archetypes share one. *)
Theorem meta_injective (t t' : AuraType) :
  (meta_emoji (meta t) = meta_emoji (meta t') -> t = t')
  /\ (meta_label (meta t) = meta_label (meta t') -> t = t')
  /\ (meta_description (meta t) = meta_description (meta t') -> t = t').
Proof.
  repeat split; destruct t, t'; intros H; try reflexivity;
    apply String.eqb_eq in H; vm_compute in H; discriminate H.
Qed.

(** ** The sort of the entries *)

Lemma has_value_true (v : number) (e : entry) :
  has_value v e = true <-> snd e = v.
Proof. unfold has_value. destruct (Req_dec_T (snd e) v); split; congruence. Qed.

Lemma insert_Permutation (a : entry) (l : list entry) :
  Permutation (a :: l) (insert byScoreDesc a l).
Proof.
  induction l as [| b l IH]; simpl; [reflexivity |].
  unfold byScoreDesc at 1. destruct (gt (snd b - snd a) 0).
  - rewrite perm_swap. apply perm_skip, IH.
  - reflexivity.
Qed.

Lemma insert_descending (a : entry) (l : list entry) :
  descending l -> descending (insert byScoreDesc a l).
Proof.
  unfold descending.
  induction l as [| b l IH]; intros S; simpl.
  - constructor; constructor.
  - unfold byScoreDesc at 1.
    apply StronglySorted_inv in S. destruct S as [S F].
    destruct (gt (snd b - snd a) 0) eqn:G.
    + apply gt_true in G. constructor; [apply IH, S |].
      apply (Permutation_Forall (insert_Permutation a l)).
      constructor; [lra | exact F].
    + apply gt_false in G. constructor; [constructor; assumption |].
      constructor; [lra |].
      apply Forall_impl with (2 := F). intros x Hx. lra.
Qed.

Lemma insert_of_value (v : number) (a : entry) (l : list entry) :
  of_value v (insert byScoreDesc a l) = of_value v (a :: l).
Proof.
  unfold of_value.
  induction l as [| b l IH]; simpl; [reflexivity |].
  unfold byScoreDesc at 1. destruct (gt (snd b - snd a) 0) eqn:G.
  - apply gt_true in G. simpl. rewrite IH. simpl.
    destruct (has_value v b) eqn:Hb, (has_value v a) eqn:Ha; try reflexivity.
    apply has_value_true in Hb, Ha. exfalso; lra.
  - reflexivity.
Qed.

(** X17.  The sort of [pickAuraType] rearranges the entries into
    descending order of affinity and keeps entries of equal affinity in
    the order they were listed. *)
Theorem Array_sort_is_stable_sort (l : list entry) :
  Permutation l (Array_sort byScoreDesc l)
  /\ descending (Array_sort byScoreDesc l)
  /\ forall v, of_value v (Array_sort byScoreDesc l) = of_value v l.
Proof.
  induction l as [| a l (P & D & S)].
  - repeat split; [constructor | constructor].
  - change (Array_sort byScoreDesc (a :: l))
      with (insert byScoreDesc a (Array_sort byScoreDesc l)).
    split; [| split].
    + rewrite <- insert_Permutation. apply perm_skip, P.
    + apply insert_descending, D.
    + intros v. rewrite insert_of_value. unfold of_value in *. simpl.
      rewrite (S v). reflexivity.
Qed.

(** ** The statistics read from the network *)

Lemma prefix_append (s t : string) : String.prefix s (s ++ t) = true.
Proof.
  induction s as [| c s IH]; simpl; [destruct t; reflexivity |].
  destruct (ascii_dec c c) as [_ | N]; [exact IH | congruence].
Qed.

Lemma falsy_false (key : option string) :
  Farcaster.falsy key = false ->
  exists k, key = Some k /\ k <> EmptyString.
Proof.
  destruct key as [k |]; simpl; [| discriminate].
  intros H. exists k. split; [reflexivity |]. apply String.eqb_neq, H.
Qed.

(** The outcome when both requests are answered. *)
Lemma fetch_resolved (key : option string) (fetch : Farcaster.Network)
      (fid : N) (sent : list Farcaster.Request) (s : Farcaster.FarcasterStats) :
  Farcaster.fetchFarcasterStats key fetch fid = (sent, Farcaster.Resolved s) ->
  exists userReq castsReq userJson castsJson,
    sent = [userReq; castsReq]
    /\ fetch userReq = Some userJson /\ fetch castsReq = Some castsJson
    /\ s = Farcaster.mkStats
             (INR (List.length (match Farcaster.body_casts castsJson with
                                | Some l => l
                                | None => []
                                end)))
             (fst (fold_left Farcaster.count
                             (match Farcaster.body_casts castsJson with
                              | Some l => l
                              | None => []
                              end) (0, 0)))
             (snd (fold_left Farcaster.count
                             (match Farcaster.body_casts castsJson with
                              | Some l => l
                              | None => []
                              end) (0, 0)))
             (nullish (Farcaster.chain
                         (Farcaster.first (Farcaster.body_users userJson))
                         Farcaster.follower_count) 0).
Proof.
  unfold Farcaster.fetchFarcasterStats.
  destruct (Farcaster.falsy key); [discriminate |].
  match goal with
  | |- context [fetch ?rq] => destruct (fetch rq) as [userJson |] eqn:U
  end; [| discriminate].
  match goal with
  | |- context [match fetch ?rq with Some _ => _ | None => (_ :: _ :: _, _) end] =>
      destruct (fetch rq) as [castsJson |] eqn:C
  end; [| discriminate].
  intros [= <- <-].
  eexists; eexists; exists userJson, castsJson.
  split; [reflexivity | split; [exact U | split; [exact C | reflexivity]]].
Qed.

Lemma or_else_length {A : Type} (a : option (list A)) :
  Farcaster.or_else (Farcaster.length_opt a) 0 = INR (Farcaster.size a).
Proof.
  destruct a as [l |]; simpl; [| reflexivity].
  destruct (Req_dec_T (INR (List.length l)) 0) as [E | _]; congruence.
Qed.

(** The loop adds to [replies] the number of replies and to
    [reactionsReceived] the number of reactions. *)
Lemma fold_count (l : list Farcaster.Cast) (replies reactionsReceived : number) :
  fold_left Farcaster.count l (replies, reactionsReceived)
  = (replies + INR (List.length (filter Farcaster.is_reply l)),
     reactionsReceived + INR (list_sum (map Farcaster.reactions_of l))).
Proof.
  revert replies reactionsReceived.
  induction l as [| c l IH]; intros r x; simpl.
  - f_equal; lra.
  - unfold Farcaster.count at 2. cbn [fst snd].
    rewrite IH, !or_else_length.
    unfold Farcaster.is_reply at 2, Farcaster.reactions_of at 2.
    rewrite !plus_INR.
    destruct (Farcaster.falsy (Farcaster.parent_hash c)); simpl negb; cbv iota.
    + f_equal; lra.
    + cbn [List.length]. rewrite S_INR. f_equal; lra.
Qed.

Lemma filter_length_le {A : Type} (f : A -> bool) (l : list A) :
  (List.length (filter f l) <= List.length l)%nat.
Proof.
  induction l as [| a l IH]; simpl; [lia |]. destruct (f a); simpl; lia.
Qed.

(** X18.  Every request that [fetchFarcasterStats] sends goes to the
    Neynar base address and carries the key as [api_key].  With the key
    absent or empty nothing is sent and the error thrown is
    "Missing NEXT_PUBLIC_NEYNAR_API_KEY".  With a key, the function does
    not throw, it resolves only after two answered requests, and it is
    rejected only on a request that received no answer. *)
Theorem fetch_requests (key : option string) (fetch : Farcaster.Network)
        (fid : N) :
  let sent := fst (Farcaster.fetchFarcasterStats key fetch fid) in
  let outcome := snd (Farcaster.fetchFarcasterStats key fetch fid) in
  Forall (fun rq => key = Some (Farcaster.api_key rq)
                    /\ String.prefix Farcaster.NEYNAR_BASE (Farcaster.url rq)
                       = true) sent
  /\ (key = None \/ key = Some EmptyString ->
      sent = []
      /\ outcome = Farcaster.Thrown "Missing NEXT_PUBLIC_NEYNAR_API_KEY")
  /\ (forall k, key = Some k -> k <> EmptyString ->
      (forall message, outcome <> Farcaster.Thrown message)
      /\ (forall s, outcome = Farcaster.Resolved s ->
          List.length sent = 2%nat /\ Forall (fun rq => fetch rq <> None) sent)
      /\ (outcome = Farcaster.Rejected ->
          exists rq, In rq sent /\ fetch rq = None)).
Proof.
  unfold Farcaster.fetchFarcasterStats.
  destruct (Farcaster.falsy key) eqn:K.
  - cbn [fst snd]. split; [constructor | split; [intros _; split; reflexivity |]].
    intros k -> Hk. simpl in K. apply String.eqb_eq in K. contradiction.
  - destruct (falsy_false key K) as (k & -> & Hk).
    match goal with
    | |- context [fetch ?rq] => destruct (fetch rq) as [userJson |] eqn:U
    end.
    + match goal with
      | |- context [match fetch ?rq with Some _ => _ | None => (_ :: _ :: _, _) end] =>
          destruct (fetch rq) as [castsJson |] eqn:C
      end; cbn [fst snd].
      * split; [| split].
        -- repeat constructor; apply prefix_append.
        -- intros [H | H]; [discriminate | congruence].
        -- intros k' _ _. split; [discriminate | split; [| discriminate]].
           intros s _. split; [reflexivity |].
           repeat constructor; congruence.
      * split; [| split].
        -- repeat constructor; apply prefix_append.
        -- intros [H | H]; [discriminate | congruence].
        -- intros k' _ _. split; [discriminate | split; [discriminate |]].
           intros _. eexists; split; [right; left; reflexivity | exact C].
    + cbn [fst snd]. split; [| split].
      * repeat constructor; apply prefix_append.
      * intros [H | H]; [discriminate | congruence].
      * intros k' _ _. split; [discriminate | split; [discriminate |]].
        intros _. eexists; split; [left; reflexivity | exact U].
Qed.

(** X19.  When [fetchFarcasterStats] resolves, [casts] is the number of
    casts of the feed answer, [replies] the number of those with a
    non-empty [parent_hash], [reactionsReceived] the number of their
    likes and recasts; so [0 <= replies <= casts] and
    [0 <= reactionsReceived].  [followers] is 0 when the user answer
    lists no user. *)
Theorem fetched_counts (key : option string) (fetch : Farcaster.Network)
        (fid : N) (sent : list Farcaster.Request) (s : Farcaster.FarcasterStats) :
  Farcaster.fetchFarcasterStats key fetch fid = (sent, Farcaster.Resolved s) ->
  exists userReq castsReq userJson castsJson feed,
    sent = [userReq; castsReq]
    /\ fetch userReq = Some userJson /\ fetch castsReq = Some castsJson
    /\ feed = match Farcaster.body_casts castsJson with
              | Some l => l
              | None => []
              end
    /\ Farcaster.casts s = INR (List.length feed)
    /\ Farcaster.replies s = INR (List.length (filter Farcaster.is_reply feed))
    /\ Farcaster.reactionsReceived s
       = INR (list_sum (map Farcaster.reactions_of feed))
    /\ 0 <= Farcaster.replies s <= Farcaster.casts s
    /\ 0 <= Farcaster.reactionsReceived s
    /\ (Farcaster.body_users userJson = None
        \/ Farcaster.body_users userJson = Some [] ->
        Farcaster.followers s = 0).
Proof.
  intros H.
  destruct (fetch_resolved _ _ _ _ _ H)
    as (userReq & castsReq & userJson & castsJson & -> & U & C & ->).
  exists userReq, castsReq, userJson, castsJson. eexists.
  split; [reflexivity | split; [exact U | split; [exact C |]]].
  split; [reflexivity |].
  cbn [Farcaster.casts Farcaster.replies Farcaster.reactionsReceived
       Farcaster.followers].
  rewrite fold_count. cbn [fst snd]. rewrite !Rplus_0_l.
  split; [reflexivity | split; [reflexivity | split; [reflexivity |]]].
  split; [| split].
  - split; [apply pos_INR | apply le_INR, filter_length_le].
  - apply pos_INR.
  - intros [-> | ->]; reflexivity.
Qed.

(** The sample network, with a key: two casts, one reply, two
    reactions. *)
Lemma fetched_counts_witness :
  exists sent s,
    Farcaster.fetchFarcasterStats (Some "key"%string) Farcaster.sample_network 3
    = (sent, Farcaster.Resolved s)
    /\ Farcaster.casts s = 2 /\ Farcaster.replies s = 1
    /\ Farcaster.reactionsReceived s = 2.
Proof.
  eexists; eexists. split; [reflexivity |].
  destruct (fetched_counts (Some "key"%string) Farcaster.sample_network 3 _ _
              eq_refl)
    as (userReq & castsReq & userJson & castsJson & feed & _ & _ & C & F
        & Hc & Hr & Hx & _).
  injection C as <-. cbn [Farcaster.body_casts] in F. subst feed.
  rewrite Hc, Hr, Hx. simpl. repeat split; lra.
Defined.

(** X20.  The statistics that [fetchFarcasterStats] resolves with, given
    to [computeAura] as its inputs, have style and onchain 0, an
    archetype among LURKER, BUILDER and INFLUENCER, and are LURKER
    exactly when [casts + replies <= 2]. *)
Theorem aura_of_fetched_stats (key : option string) (fetch : Farcaster.Network)
        (fid : N) (sent : list Farcaster.Request) (s : Farcaster.FarcasterStats) :
  Farcaster.fetchFarcasterStats key fetch fid = (sent, Farcaster.Resolved s) ->
  exists r,
    computeAura (inputs_of s) = Some r
    /\ style (breakdown r) = 0 /\ onchain (breakdown r) = 0
    /\ In (type r) [LURKER; BUILDER; INFLUENCER]
    /\ (type r = LURKER <-> Farcaster.casts s + Farcaster.replies s <= 2).
Proof.
  intros H.
  destruct (fetch_resolved _ _ _ _ _ H)
    as (userReq & castsReq & userJson & castsJson & _ & _ & _ & S).
  assert (0 <= casts (inputs_of s)) as Hc.
  { rewrite S. cbn [inputs_of casts Farcaster.casts]. apply pos_INR. }
  assert (0 <= replies (inputs_of s)) as Hr.
  { rewrite S. cbn [inputs_of replies Farcaster.replies].
    rewrite fold_count. cbn [fst]. rewrite Rplus_0_l. apply pos_INR. }
  assert (nullish None 0 <= 0) as N0 by (simpl; lra).
  destruct (no_signal_breakdown (inputs_of s) N0 N0 N0) as [Y O].
  pose proof (breakdownOf_nonneg (inputs_of s)) as (A0 & I0 & _).
  destruct (lurker_iff_override (inputs_of s)) as (r & E & T).
  exists r. split; [exact E |].
  destruct (computeAura_total (inputs_of s)) as (t & P & E').
  rewrite E' in E. injection E as <-. cbn [breakdown type] in *.
  split; [exact Y | split; [exact O | split]].
  - apply (pickAuraType_no_signal (inputs_of s) (breakdownOf (inputs_of s)));
      try assumption.
    cbn [inputs_of longCastRatio nullish]. minmax_lra.
  - rewrite T. apply (override_iff_few_actions (inputs_of s) Hc Hr).
Qed.

Lemma aura_of_fetched_stats_witness :
  exists sent s r,
    Farcaster.fetchFarcasterStats (Some "key"%string) Farcaster.sample_network 3
    = (sent, Farcaster.Resolved s)
    /\ computeAura (inputs_of s) = Some r
    /\ In (type r) [LURKER; BUILDER; INFLUENCER].
Proof.
  eexists; eexists.
  destruct (aura_of_fetched_stats (Some "key"%string) Farcaster.sample_network 3
              _ _ eq_refl) as (r & E & _ & _ & T & _).
  exists r. split; [reflexivity | split; [exact E | exact T]].
Defined.
